(** * AlphienStudio (RStudio server core): JSON helpers and server lifecycle

    A shallow embedding of
      - [src/cpp/core/json/Json.cpp]: the option-list encoding
        ([toJsonArray], [optionsFromJson]) and the bulk extraction helpers
        ([fillSetString], [fillVectorString], [fillVectorInt], [fillMap]);
      - [src/cpp/server/ServerMain.cpp]: [pageNotFoundHandler], the handler
        table built by [httpServerAddHandlers] and the signal loop of
        [waitForSignals].

    C++ [std::string] is modelled by [string] (a sequence of 8-bit
    characters), [std::vector] by [list], [std::set<std::string>] by
    [gset string], [std::map<std::string, _>] by [gmap string _].  A C++
    exception leaving a call is the [Throw] result of the [outcome] monad. *)

From Stdlib Require Import ZArith Ascii String List Bool Lia.
From stdpp Require Import base option list strings gmap.

#[local] Set Warnings "-register-all".

(** ** Exceptions as results *)

Inductive exn : Type :=
| runtime_error (what : string)   (* std::runtime_error *)
| out_of_range (what : string).   (* std::out_of_range *)

Inductive outcome (A : Type) : Type :=
| Ok (a : A)
| Throw (e : exn).
Arguments Ok {A} a.
Arguments Throw {A} e.

#[global] Instance outcome_ret : MRet outcome := fun A a => Ok a.
#[global] Instance outcome_bind : MBind outcome := fun A B f m =>
  match m with
  | Ok a => f a
  | Throw e => Throw e
  end.

Definition returns {A} (m : outcome A) : bool :=
  match m with Ok _ => true | Throw _ => false end.

(** ** Strings: the pieces of [std::string] and Boost the code uses *)

Module Str.

Definition backslash : ascii := "\"%char.
Definition equals : ascii := "="%char.

Fixpoint take (n : nat) (s : string) : string :=
  match n, s with
  | S n', String c s' => String c (take n' s')
  | _, _ => EmptyString
  end.

Fixpoint drop (n : nat) (s : string) : string :=
  match n, s with
  | S n', String _ s' => drop n' s'
  | _, _ => s
  end.

(** [s.substr(pos, len)]; [len = None] is the default [npos].  The call
    raises [std::out_of_range] when [pos > s.size()]. *)
Definition substr (s : string) (pos : nat) (len : option nat) : outcome string :=
  if Nat.ltb (String.length s) pos
  then Throw (out_of_range "basic_string::substr")
  else Ok (match len with
           | Some n => take n (drop pos s)
           | None => drop pos s
           end).

(** [boost::replace_all_copy(input, search, format)] for a non-empty
    [search]: occurrences are found left to right, do not overlap, and the
    replacement text is not searched again.  [skip] counts the characters of
    the occurrence being replaced that are still to be passed over. *)
Fixpoint replace_from (skip : nat) (search format input : string) : string :=
  match input with
  | EmptyString => EmptyString
  | String c rest =>
      match skip with
      | S k => replace_from k search format rest
      | O =>
          if String.prefix search input
          then format +:+ replace_from (String.length search - 1) search format rest
          else String c (replace_from O search format rest)
      end
  end.

Definition replace_all_copy (input search format : string) : string :=
  replace_from O search format input.

(** The regular expressions needed here: a sequence of one-character atoms. *)
Inductive atom : Type :=
| Lit (c : ascii)        (* the character c *)
| NotLit (c : ascii).    (* the class [^c] *)

Definition atom_matches (a : atom) (c : ascii) : bool :=
  match a with
  | Lit x => Ascii.eqb c x
  | NotLit x => negb (Ascii.eqb c x)
  end.

Fixpoint match_here (rx : list atom) (s : string) : bool :=
  match rx with
  | [] => true
  | a :: rx' =>
      match s with
      | EmptyString => false
      | String c s' => atom_matches a c && match_here rx' s'
      end
  end.

(** [boost::regex_search(s, results, rx)]: [Some p] when the leftmost match
    starts at [results.position() = p], [None] when the search fails. *)
Fixpoint regex_search (rx : list atom) (s : string) : option nat :=
  if match_here rx s then Some O
  else match s with
       | EmptyString => None
       | String _ s' => S <$> regex_search rx s'
       end.

End Str.

(** ** Option lists (Json.cpp, lines 62-131) *)

Definition Pair : Type := string * string.

(** Modelled from the spec: the JSON value type of [core/json/Json.hpp] and
    json_spirit, which is not part of the excerpt: "a variant over Null,
    Boolean, Integer, Real, String, Array, Object"; an Array is an ordered
    sequence of values, an Object a sequence of (name, value) members in
    iteration order.  A Real carries its binary64 bit pattern. *)
Inductive Value : Type :=
| Null
| Boolean (b : bool)
| Integer (n : Z)
| Real (bits : Z)
| String_ (s : string)
| Array_ (a : list Value)
| Object_ (o : list (string * Value)).

Definition Array : Type := list Value.
Definition Member : Type := string * Value.
Definition Object : Type := list Member.

Inductive Value_type : Type :=
| ObjectType | ArrayType | StringType | BooleanType | IntegerType | RealType | NullType.

#[global] Instance Value_type_eq_dec : EqDecision Value_type.
Proof. solve_decision. Defined.

Definition type (v : Value) : Value_type :=
  match v with
  | Null => NullType
  | Boolean _ => BooleanType
  | Integer _ => IntegerType
  | Real _ => RealType
  | String_ _ => StringType
  | Array_ _ => ArrayType
  | Object_ _ => ObjectType
  end.

(** The C++ type [int]: 32 bits, two's complement.  [to_int n] is the
    [int] that the conversion of the integer [n] gives: [n] itself when it
    is in range, and otherwise the value in range that differs from [n] by
    a multiple of 2^32. *)
Definition INT_MIN : Z := - 2 ^ 31.
Definition INT_MAX : Z := 2 ^ 31 - 1.

Definition to_int (n : Z) : Z := (n + 2 ^ 31) mod 2 ^ 32 - 2 ^ 31.

Definition is_int (n : Z) : Prop := (INT_MIN <= n <= INT_MAX)%Z.

(** Modelled from the spec: the typed getters of the value type.  "Type tag
    and stored payload always agree; extraction functions fail (rather than
    corrupt memory) when the requested type does not match the actual tag."
    A getter returns a reference or a value, so its failure is an exception. *)
Definition get_str (v : Value) : outcome string :=
  match v with
  | String_ s => Ok s
  | _ => Throw (runtime_error "value type is not str_type")
  end.

(** Modelled from the spec: [get_int], the getter whose result line 169
    stores in a [std::vector<int>].  It returns an [int]; the payload of an
    Integer is a JSON integer, wider than an [int], and is converted. *)
Definition get_int (v : Value) : outcome Z :=
  match v with
  | Integer n => Ok (to_int n)
  | _ => Throw (runtime_error "value type is not int_type")
  end.

(** Modelled from the spec: [get_array], as [get_str]. *)
Definition get_array (v : Value) : outcome Array :=
  match v with
  | Array_ a => Ok a
  | _ => Throw (runtime_error "value type is not array_type")
  end.

(** Modelled from the spec: [isType<T>(Value) -> bool], the tag test. *)
Definition isType (t : Value_type) (v : Value) : bool :=
  bool_decide (type v = t).

(** The pattern of line 114, the C++ literal "[^\\\\]=". *)
Definition rx : list Str.atom := [Str.NotLit Str.backslash; Str.Lit Str.equals].

(** Body of the loop of [toJsonArray] (lines 74-81). *)
Definition encodeOption (option : Pair) : string :=
  let escapedKey := Str.replace_all_copy (fst option) "=" "\=" in
  let escapedValue := Str.replace_all_copy (snd option) "=" "\=" in
  let argVal := escapedKey in
  if negb (String.eqb escapedValue "")
  then argVal +:+ ("=" +:+ escapedValue)
  else argVal.

Fixpoint toJsonArray_loop (options : list Pair) (optionsArray : Array) : Array :=
  match options with
  | [] => optionsArray
  | option :: rest => toJsonArray_loop rest (optionsArray ++ [String_ (encodeOption option)])
  end.

Definition toJsonArray (options : list Pair) : Array :=
  toJsonArray_loop options [].

(** Lines 108-128: one string element of the array. *)
Definition decodeOption (optionStr : string) : outcome Pair :=
  match Str.regex_search rx optionStr with
  | Some position =>
      key ← Str.substr optionStr 0 (Some (position + 1));
      value ← Str.substr optionStr (position + 2) None;
      let key := Str.replace_all_copy key "\=" "=" in
      let value := Str.replace_all_copy value "\=" "=" in
      mret (key, value)
  | None =>
      let unescapedKey := Str.replace_all_copy optionStr "\=" "=" in
      mret (unescapedKey, "")
  end.

(** [optionsFromJson(const json::Array&)] (lines 100-131). *)
Fixpoint optionsFromJson_loop (optionsJson : Array) (options : list Pair)
  : outcome (list Pair) :=
  match optionsJson with
  | [] => mret options
  | value :: rest =>
      if negb (isType StringType value)
      then optionsFromJson_loop rest options
      else
        optionStr ← get_str value;
        option ← decodeOption optionStr;
        optionsFromJson_loop rest (options ++ [option])
  end.

Definition optionsFromJson (optionsJson : Array) : outcome (list Pair) :=
  optionsFromJson_loop optionsJson [].

(** [optionsFromJson(const json::Object&)] (lines 87-98). *)
Fixpoint optionsFromJsonObject_loop (optionsJson : Object) (options : list Pair)
  : outcome (list Pair) :=
  match optionsJson with
  | [] => mret options
  | member :: rest =>
      let name := fst member in
      let value := snd member in
      if isType StringType value
      then s ← get_str value; optionsFromJsonObject_loop rest (options ++ [(name, s)])
      else optionsFromJsonObject_loop rest options
  end.

Definition optionsFromJsonObject (optionsJson : Object) : outcome (list Pair) :=
  optionsFromJsonObject_loop optionsJson [].

(** ** Vocabulary of the statements about option lists *)

Definition escape (s : string) : string := Str.replace_all_copy s "=" "\=".
Definition unescape (s : string) : string := Str.replace_all_copy s "\=" "=".

(** [starts_with_equals s]: the first character of [s] is [=]. *)
Definition starts_with_equals (s : string) : bool :=
  Str.match_here [Str.Lit Str.equals] s.

Fixpoint last_char (s : string) : option ascii :=
  match s with
  | EmptyString => None
  | String c EmptyString => Some c
  | String _ s' => last_char s'
  end.

Fixpoint contains_equals (s : string) : bool :=
  match s with
  | EmptyString => false
  | String c s' => Ascii.eqb c Str.equals || contains_equals s'
  end.

(** A key after which the delimiter can be found again: it is not empty and
    its last character is not the escape character. *)
Definition delimitable (key : string) : bool :=
  match last_char key with
  | Some c => negb (Ascii.eqb c Str.backslash)
  | None => false
  end.

Definition splittable (option : Pair) : bool :=
  String.eqb (snd option) "" || delimitable (fst option).

(** The string-typed elements of an array, in order. *)
Definition string_entries (a : Array) : list string :=
  omap (fun v => match v with String_ s => Some s | _ => None end) a.

(** The string-typed members of an object, in iteration order. *)
Definition string_members (o : Object) : list Pair :=
  omap (fun m => match snd m with String_ s => Some (fst m, s) | _ => None end) o.


(** ** Bulk extraction (Json.cpp, lines 133-189)

    The output container is passed by pointer and updated in place: each
    function takes the container as it is at the call and returns the
    boolean result together with the container as the call leaves it. *)

Fixpoint fillSetString (array : Array) (pSet : gset string)
  : outcome (bool * gset string) :=
  match array with
  | [] => mret (true, pSet)
  | it :: rest =>
      if negb (isType StringType it)
      then mret (false, pSet)
      else s ← get_str it; fillSetString rest (pSet ∪ {[ s ]})
  end.

Fixpoint fillVectorString (array : Array) (pVector : list string)
  : outcome (bool * list string) :=
  match array with
  | [] => mret (true, pVector)
  | it :: rest =>
      if negb (isType StringType it)
      then mret (false, pVector)
      else s ← get_str it; fillVectorString rest (pVector ++ [s])
  end.

(** [pVector] is a [std::vector<int>]: each of its elements is an [int],
    which is what [get_int] returns. *)
Fixpoint fillVectorInt (array : Array) (pVector : list Z)
  : outcome (bool * list Z) :=
  match array with
  | [] => mret (true, pVector)
  | it :: rest =>
      if negb (isType IntegerType it)
      then mret (false, pVector)
      else n ← get_int it; fillVectorInt rest (pVector ++ [n])
  end.

Fixpoint fillMap (object : Object) (pMap : gmap string (list string))
  : outcome (bool * gmap string (list string)) :=
  match object with
  | [] => mret (true, pMap)
  | it :: rest =>
      array ← get_array (snd it);
      filled ← fillVectorString array [];
      if negb (fst filled)
      then mret (false, pMap)
      else fillMap rest (<[ fst it := snd filled ]> pMap)
  end.

(** *** Vocabulary of the statements about extraction *)

(** The strings at the front of an array, up to the first element that is
    not a string. *)
Fixpoint leading_strings (array : Array) : list string :=
  match array with
  | String_ s :: rest => s :: leading_strings rest
  | _ => []
  end.

(** The integers at the front of an array, up to the first element that
    is not an integer, as JSON holds them. *)
Fixpoint leading_ints (array : Array) : list Z :=
  match array with
  | Integer n :: rest => n :: leading_ints rest
  | _ => []
  end.

(** ** The server (ServerMain.cpp) *)

(** [core::Error]: [Success()] or an error; [if (error)] tests [is_error]. *)
Inductive Error : Type :=
| Success
| systemError (code : Z) (location : string).

Definition is_error (e : Error) : bool :=
  match e with
  | Success => false
  | systemError _ _ => true
  end.

Inductive log_entry : Type :=
| LOG_ERROR (e : Error)
| LOG_WARNING_MESSAGE (message : string).

(** *** The page-not-found handler and the handler table (lines 156-260) *)

Module http.

Record Request : Type := { uri : string }.

(** The parts of [http::Response] the handler writes. *)
Record Response : Type := {
  statusCode : Z;
  contentType : string;
  body : string
}.

Definition setContentType (value : string) (r : Response) : Response :=
  {| statusCode := statusCode r; contentType := value; body := body r |}.

Definition setBodyUnencoded (value : string) (r : Response) : Response :=
  {| statusCode := statusCode r; contentType := contentType r; body := value |}.

Definition setStatusCode (code : Z) (r : Response) : Response :=
  {| statusCode := code; contentType := contentType r; body := body r |}.

Module status.
Definition NotFound : Z := 404.
End status.

(** A blocking handler reads the request, fills the response it is given
    and may write to the log. *)
Definition UriHandlerFunction : Type :=
  Request -> Response -> list log_entry -> Response * list log_entry.

End http.

(** The asynchronous handlers are collaborators; the table only names them. *)
Inductive SecureAsyncUriHandlerFunction : Type :=
| proxyRpcRequest
| proxyEventsRequest
| proxyContentRequest
| proxyLocalhostRequest (ipv6 : bool)
| secureAsyncFileHandler.

Inductive AsyncUriHandlerFunction : Type :=
| secureAsyncJsonRpcHandler (f : SecureAsyncUriHandlerFunction)
| secureAsyncHttpHandler (f : SecureAsyncUriHandlerFunction) (authenticate : bool)
| secureAsyncUploadHandler (f : SecureAsyncUriHandlerFunction).

(** One call to [uri_handlers]. *)
Inductive registration : Type :=
| add (prefix : string) (handler : AsyncUriHandlerFunction)
| addProxyHandler (prefix : string) (handler : AsyncUriHandlerFunction)
| addBlocking (prefix : string) (handler : http.UriHandlerFunction)
| setBlockingDefault (handler : http.UriHandlerFunction).

Definition registered_prefix (r : registration) : option string :=
  match r with
  | add prefix _ | addProxyHandler prefix _ | addBlocking prefix _ => Some prefix
  | setBlockingDefault _ => None
  end.

Record Options : Type := {
  wwwLocalPath : string;
  wwwProxyLocalhost : bool
}.

Section Handlers.

(** Collaborators outside the excerpt. *)
Variable options : Options.
Variable jsLiteralEscape : string -> string.
Variable childPath : string -> string -> string.      (* FilePath::childPath *)
Variable complete : string -> string -> string.       (* FilePath::complete *)
(** [core::text::renderTemplate]: the error and what was written to [os]. *)
Variable renderTemplate : string -> gmap string string -> Error * string.
Variable kBrowserUnsupported : string.
Variable handleLogRequest handleMetaRequest : http.UriHandlerFunction.
Variable handleSecureTemplateRequest : string -> http.UriHandlerFunction.
Variable handleBrowserUnsupportedRequest : http.UriHandlerFunction.
Variable blockingFileHandler : http.UriHandlerFunction.
Variable secureJsonRpcHandler secureHttpHandler :
  http.UriHandlerFunction -> http.UriHandlerFunction.

Definition pageNotFoundHandler : http.UriHandlerFunction :=
  fun request pResponse log =>
    let vars : gmap string string :=
      <[ "request_uri" := jsLiteralEscape (http.uri request) ]> ∅ in
    let notFoundTemplate := childPath (wwwLocalPath options) "404.htm" in
    let '(err, os) := renderTemplate notFoundTemplate vars in
    let '(pResponse, log) :=
      if is_error err
      then
        (* if we cannot display the 404 page log the error *)
        (pResponse, log ++ [LOG_ERROR err])
      else
        let body := os in
        (http.setBodyUnencoded body (http.setContentType "text/html" pResponse), log) in
    (* set 404 status even if there was an error showing the proper
       not found page *)
    (http.setStatusCode http.status.NotFound pResponse, log).

(** The calls [httpServerAddHandlers] makes on the table, in order. *)
Definition httpServerAddHandlers : list registration :=
  [ add "/rpc" (secureAsyncJsonRpcHandler proxyRpcRequest);
    add "/events" (secureAsyncJsonRpcHandler proxyEventsRequest);
    add "/graphics" (secureAsyncHttpHandler proxyContentRequest false);
    add "/upload" (secureAsyncUploadHandler proxyContentRequest);
    add "/export" (secureAsyncHttpHandler proxyContentRequest false);
    add "/source" (secureAsyncHttpHandler proxyContentRequest false);
    add "/content" (secureAsyncHttpHandler proxyContentRequest false);
    add "/diff" (secureAsyncHttpHandler proxyContentRequest false);
    add "/file_show" (secureAsyncHttpHandler proxyContentRequest false);
    add "/view_pdf" (secureAsyncHttpHandler proxyContentRequest false);
    add "/agreement" (secureAsyncHttpHandler proxyContentRequest false);
    add "/presentation" (secureAsyncHttpHandler proxyContentRequest false);
    add "/pdf_js" (secureAsyncHttpHandler proxyContentRequest false);
    add "/mathjax" (secureAsyncHttpHandler proxyContentRequest false);
    add "/connections" (secureAsyncHttpHandler proxyContentRequest false);
    add "/theme" (secureAsyncHttpHandler proxyContentRequest false);
    add "/python" (secureAsyncHttpHandler proxyContentRequest false);
    add "/help" (secureAsyncHttpHandler proxyContentRequest true);
    add "/files" (secureAsyncHttpHandler proxyContentRequest true);
    add "/custom" (secureAsyncHttpHandler proxyContentRequest true);
    add "/session" (secureAsyncHttpHandler proxyContentRequest true);
    add "/docs" (secureAsyncHttpHandler secureAsyncFileHandler true);
    add "/html_preview" (secureAsyncHttpHandler proxyContentRequest true);
    add "/rmd_output" (secureAsyncHttpHandler proxyContentRequest true);
    add "/grid_data" (secureAsyncHttpHandler proxyContentRequest true);
    add "/grid_resource" (secureAsyncHttpHandler proxyContentRequest true);
    add "/chunk_output" (secureAsyncHttpHandler proxyContentRequest true);
    add "/profiles" (secureAsyncHttpHandler proxyContentRequest true);
    add "/rmd_data" (secureAsyncHttpHandler proxyContentRequest true);
    add "/profiler_resource" (secureAsyncHttpHandler proxyContentRequest true) ]
  ++ (if wwwProxyLocalhost options
      then [ addProxyHandler "/p/"
               (secureAsyncHttpHandler (proxyLocalhostRequest false) true);
             addProxyHandler "/p6/"
               (secureAsyncHttpHandler (proxyLocalhostRequest true) true) ]
      else [])
  ++ [ addBlocking "/log" (secureJsonRpcHandler handleLogRequest);
       addBlocking "/meta" (secureJsonRpcHandler handleMetaRequest);
       addBlocking "/progress"
         (secureHttpHandler
            (handleSecureTemplateRequest
               (complete (wwwLocalPath options) "progress.htm")));
       addBlocking kBrowserUnsupported handleBrowserUnsupportedRequest;
       addBlocking "/templates" pageNotFoundHandler;
       setBlockingDefault blockingFileHandler ].

End Handlers.

(** *** The signal loop (lines 271-363) *)

(** Signal numbers of <signal.h> on Linux. *)
Definition SIGHUP : Z := 1.
Definition SIGINT : Z := 2.
Definition SIGQUIT : Z := 3.
Definition SIGTERM : Z := 15.
Definition SIGCHLD : Z := 17.

Definition EXIT_FAILURE : Z := 1.

Inductive sighandler : Type :=
| SIG_DFL
| SIG_IGN
| handleSIGCHLD.     (* the bogus handler of line 272 *)

#[global] Instance sighandler_eq_dec : EqDecision sighandler.
Proof. solve_decision. Defined.

(** The calls to collaborators and to the system, in program order. *)
Inductive call : Type :=
| notifySIGCHLD                          (* sessionManager().notifySIGCHLD() *)
| overlay_shutdown                       (* overlay::shutdown() *)
| overlay_reloadConfiguration            (* overlay::reloadConfiguration() *)
| clearSignalMask                        (* core::system::clearSignalMask() *)
| sigaction (sig : Z) (h : sighandler)   (* ::sigaction(sig, &sa, NULL) *)
| pthread_sigmask_block (mask : list Z)  (* ::pthread_sigmask(SIG_BLOCK, ..) *)
| kill_self (sig : Z).                   (* ::kill(::getpid(), sig) *)

#[global] Instance call_eq_dec : EqDecision call.
Proof. solve_decision. Defined.

Inductive proc_status : Type :=
| Running                 (* the process lives *)
| Exited (code : Z)       (* left [main] with this exit status *)
| Signaled (sig : Z).     (* terminated by the default action of a signal *)

(** The process as the loop sees and changes it. *)
Record process : Type := {
  calls : list call;
  log : list log_entry;
  blocked : gset Z;                  (* the signal mask *)
  disposition : gmap Z sighandler;   (* no entry: SIG_DFL *)
  pending : gset Z;                  (* generated while blocked, not yet taken *)
  status : proc_status
}.

Definition record_call (c : call) (w : process) : process :=
  {| calls := calls w ++ [c]; log := log w; blocked := blocked w;
     disposition := disposition w; pending := pending w; status := status w |}.

Definition write_log (e : log_entry) (w : process) : process :=
  {| calls := calls w; log := log w ++ [e]; blocked := blocked w;
     disposition := disposition w; pending := pending w; status := status w |}.

Definition set_blocked (mask : gset Z) (w : process) : process :=
  {| calls := calls w; log := log w; blocked := mask;
     disposition := disposition w; pending := pending w; status := status w |}.

Definition set_disposition (sig : Z) (h : sighandler) (w : process) : process :=
  {| calls := calls w; log := log w; blocked := blocked w;
     disposition := <[ sig := h ]> (disposition w); pending := pending w;
     status := status w |}.

Definition set_pending (p : gset Z) (w : process) : process :=
  {| calls := calls w; log := log w; blocked := blocked w;
     disposition := disposition w; pending := p; status := status w |}.

Definition set_status (s : proc_status) (w : process) : process :=
  {| calls := calls w; log := log w; blocked := blocked w;
     disposition := disposition w; pending := pending w; status := s |}.

Definition disposition_of (w : process) (sig : Z) : sighandler :=
  default SIG_DFL (disposition w !! sig).

(** POSIX: the default action of SIGCHLD is to ignore the signal; that of
    SIGHUP, SIGINT, SIGQUIT, SIGTERM (and of the other signals the loop can
    meet) is to terminate the process. *)
Definition default_action_terminates (sig : Z) : bool :=
  negb (Z.eqb sig SIGCHLD).

(** What the system answers to the calls of one pass of the loop. *)
Record os_results : Type := {
  sigwait_result : Z;
  clearSignalMask_result : Error;
  sigaction_result : Z
}.

Definition is_running (w : process) : bool :=
  match status w with Running => true | _ => false end.

(** The delivery of [sig] ends the process: the signal has its default
    disposition and the default action is to terminate. *)
Definition terminates (w : process) (sig : Z) : bool :=
  bool_decide (disposition_of w sig = SIG_DFL) && default_action_terminates sig.

Definition least (sigs : list Z) : option Z :=
  match sigs with
  | [] => None
  | sig :: rest => Some (foldr Z.min sig rest)
  end.

(** POSIX: the pending signals that are not blocked are delivered.  An
    ignored signal and one with the handler of line 272 (its body is empty)
    leave the process as it is; a signal whose delivery terminates ends the
    process, the one with the least number first, as Linux delivers them.
    The signals still blocked stay pending. *)
Definition deliver_pending (w : process) : process :=
  let unblocked := elements (pending w ∖ blocked w) in
  let w' := set_pending (pending w ∩ blocked w) w in
  match least (filter (fun sig => terminates w sig = true) unblocked) with
  | Some sig => set_status (Signaled sig) w'
  | None => w'
  end.

(** [::sigwait(&wait_mask, &sig)]: on success [sig] is the number of the
    signal taken, which is then no longer pending. *)
Definition sys_sigwait (result : Z) (sig : Z) (w : process) : Z * process :=
  (result, if Z.eqb result 0 then set_pending (pending w ∖ {[ sig ]}) w else w).

(** [core::system::clearSignalMask()]: on success no signal is blocked, and
    the signals that were pending are delivered before the call returns. *)
Definition sys_clearSignalMask (result : Error) (w : process) : Error * process :=
  let w := record_call clearSignalMask w in
  (result, if is_error result then w else deliver_pending (set_blocked ∅ w)).

(** [::sigaction(sig, &sa, NULL)] with [sa.sa_handler = h]. *)
Definition sys_sigaction (result : Z) (sig : Z) (h : sighandler) (w : process)
  : Z * process :=
  let w := record_call (sigaction sig h) w in
  (result, if Z.eqb result 0 then set_disposition sig h w else w).

(** [::pthread_sigmask(SIG_BLOCK, &mask, NULL)]. *)
Definition sys_pthread_sigmask_block (result : Z) (mask : list Z) (w : process)
  : Z * process :=
  let w := record_call (pthread_sigmask_block mask) w in
  (result, if Z.eqb result 0 then set_blocked (blocked w ∪ list_to_set mask) w else w).

(** [::kill(::getpid(), sig)]: a blocked signal stays pending; otherwise its
    disposition decides. *)
Definition sys_kill_self (sig : Z) (w : process) : process :=
  let w := record_call (kill_self sig) w in
  if bool_decide (sig ∈ blocked w) then set_pending (pending w ∪ {[ sig ]}) w
  else
    match disposition_of w sig with
    | SIG_DFL => if default_action_terminates sig then set_status (Signaled sig) w else w
    | SIG_IGN => w
    | handleSIGCHLD => w
    end.

Definition wait_mask : list Z := [SIGCHLD; SIGINT; SIGQUIT; SIGTERM; SIGHUP].

Section Signals.

Variable numberToString : Z -> string.   (* safe_convert::numberToString *)
Variable ERROR_LOCATION : string.

(** [reloadConfiguration] (lines 262-269): the result is swallowed. *)
Definition reloadConfiguration (w : process) : process :=
  record_call overlay_reloadConfiguration w.

(** One pass of the [for(;;)] of [waitForSignals], [sig] being the signal
    [sigwait] stored: [inl error] when the function returns [error],
    [inr w] when the pass ends, the loop going on from [w] if the process
    still runs. *)
Definition waitForSignals_pass (r : os_results) (sig : Z) (w : process)
  : Error + process :=
  (* perform wait *)
  let '(result, w) := sys_sigwait (sigwait_result r) sig w in
  if negb (Z.eqb result 0) then inl (systemError result ERROR_LOCATION)
  else if Z.eqb sig SIGCHLD then
    inr (record_call notifySIGCHLD w)
  else if Z.eqb sig SIGINT || Z.eqb sig SIGQUIT || Z.eqb sig SIGTERM then
    (* call overlay shutdown *)
    let w := record_call overlay_shutdown w in
    (* clear the signal mask *)
    let '(error, w1) := sys_clearSignalMask (clearSignalMask_result r) w in
    (* when a pending signal, delivered in that call, ended the process,
       nothing more is executed *)
    if is_running w && negb (is_running w1) then inr w1 else
    let w := if is_error error then write_log (LOG_ERROR error) w1 else w1 in
    (* reset the signal to its default *)
    let '(result, w) := sys_sigaction (sigaction_result r) sig SIG_DFL w in
    let w :=
      if negb (Z.eqb result 0)
      then write_log (LOG_ERROR (systemError result ERROR_LOCATION)) w
      else w in
    (* re-raise the signal *)
    inr (sys_kill_self sig w)
  else if Z.eqb sig SIGHUP then
    inr (reloadConfiguration w)
  else
    inr (write_log
           (LOG_WARNING_MESSAGE
              ("Unexpected signal returned from sigwait: " +:+ numberToString sig))
           w).

Inductive loop_end : Type :=
| Waiting                  (* blocked in sigwait: nothing more delivered *)
| Returned (error : Error) (* waitForSignals returned *)
| Killed.                  (* the process no longer runs *)

(** The loop over what [sigwait] delivers, one entry for each pass.  It
    has no exit of its own: it stops when [sigwait] fails or when the
    process is terminated. *)
Fixpoint waitForSignals_loop (delivered : list (os_results * Z)) (w : process)
  : loop_end * process :=
  match status w with
  | Running =>
      match delivered with
      | [] => (Waiting, w)
      | (r, sig) :: rest =>
          match waitForSignals_pass r sig w with
          | inl error => (Returned error, w)
          | inr w' => waitForSignals_loop rest w'
          end
      end
  | _ => (Killed, w)
  end.

(** What the system answers to the two calls before the loop. *)
Record setup_results : Type := {
  setup_sigaction_result : Z;
  setup_errno : Z;
  setup_sigmask_result : Z
}.

Definition waitForSignals
  (s : setup_results) (delivered : list (os_results * Z)) (w : process)
  : loop_end * process :=
  let '(result, w) := sys_sigaction (setup_sigaction_result s) SIGCHLD handleSIGCHLD w in
  if negb (Z.eqb result 0)
  then (Returned (systemError (setup_errno s) ERROR_LOCATION), w)
  else
    let '(result, w) := sys_pthread_sigmask_block (setup_sigmask_result s) wait_mask w in
    if negb (Z.eqb result 0)
    then (Returned (systemError result ERROR_LOCATION), w)
    else waitForSignals_loop delivered w.

(** The end of [main] (lines 595-601). *)
Definition main_wait
  (s : setup_results) (delivered : list (os_results * Z)) (w : process) : process :=
  match waitForSignals s delivered w with
  | (Returned error, w) =>
      if is_error error then set_status (Exited EXIT_FAILURE) w
      else set_status (Exited 0) w
  | (_, w) => w
  end.

End Signals.

(** *** Vocabulary of the statements about the signal loop *)

Definition is_shutdown_signal (sig : Z) : bool :=
  Z.eqb sig SIGINT || Z.eqb sig SIGQUIT || Z.eqb sig SIGTERM.

Definition shutdown_calls (w : process) : nat :=
  length (filter (fun c => c = overlay_shutdown) (calls w)).

(** Which collaborator a signal other than SIGINT, SIGQUIT, SIGTERM reaches,
    and what is logged for it. *)
Definition collaborator_calls (sig : Z) : list call :=
  if Z.eqb sig SIGCHLD then [notifySIGCHLD]
  else if Z.eqb sig SIGHUP then [overlay_reloadConfiguration]
  else [].

Definition unexpected_warnings (numberToString : Z -> string) (sig : Z)
  : list log_entry :=
  if Z.eqb sig SIGCHLD || Z.eqb sig SIGHUP then []
  else [LOG_WARNING_MESSAGE
          ("Unexpected signal returned from sigwait: " +:+ numberToString sig)].

(** A pass in which [sigwait] succeeded and stored a signal that is not
    SIGINT, SIGQUIT or SIGTERM. *)
Definition quiet_delivery (d : os_results * Z) : bool :=
  Z.eqb (sigwait_result d.1) 0 && negb (is_shutdown_signal d.2).

(** The server as it waits: the signals of the wait mask are blocked and
    SIGCHLD has the bogus handler. *)
Definition waiting_process : process :=
  {| calls := []; log := []; blocked := list_to_set wait_mask;
     disposition := {[ SIGCHLD := handleSIGCHLD ]}; pending := ∅;
     status := Running |}.

Definition os_success : os_results :=
  {| sigwait_result := 0; clearSignalMask_result := Success; sigaction_result := 0 |}.

(** A handler that leaves the response as it is. *)
Definition no_handler : http.UriHandlerFunction := fun _ r log => (r, log).


(** The calls one pass of the loop makes for the signal [sig]. *)
Definition pass_calls (sig : Z) : list call :=
  if is_shutdown_signal sig
  then [overlay_shutdown; clearSignalMask; sigaction sig SIG_DFL; kill_self sig]
  else collaborator_calls sig.

Definition count_call (c : call) (l : list call) : nat :=
  length (filter (fun c' => c' = c) l).

Definition count_signal (p : Z -> bool) (delivered : list (os_results * Z)) : nat :=
  length (filter (fun d => p d.2 = true) delivered).

Definition setup_success : setup_results :=
  {| setup_sigaction_result := 0; setup_errno := 0; setup_sigmask_result := 0 |}.

Definition os_mask_failure : os_results :=
  {| sigwait_result := 0;
     clearSignalMask_result := systemError 22 "clearSignalMask";
     sigaction_result := 0 |}.

Definition os_sigwait_failure : os_results :=
  {| sigwait_result := 22; clearSignalMask_result := Success; sigaction_result := 0 |}.

(** The steps of the branch for SIGINT, SIGQUIT and SIGTERM: the process
    after [sigwait] took [sig] and [overlay::shutdown] and [clearSignalMask]
    were called, and the process after the call of [sigaction] that follows,
    with what is logged around it. *)
Definition mask_cleared (r : os_results) (sig : Z) (w : process) : process :=
  (sys_clearSignalMask (clearSignalMask_result r)
     (record_call overlay_shutdown (set_pending (pending w ∖ {[ sig ]}) w))).2.

Definition signal_reset (ERROR_LOCATION : string) (r : os_results) (sig : Z)
  (w1 : process) : process :=
  let w2 :=
    if is_error (clearSignalMask_result r)
    then write_log (LOG_ERROR (clearSignalMask_result r)) w1 else w1 in
  let w3 := (sys_sigaction (sigaction_result r) sig SIG_DFL w2).2 in
  if negb (Z.eqb (sigaction_result r) 0)
  then write_log (LOG_ERROR (systemError (sigaction_result r) ERROR_LOCATION)) w3
  else w3.

(** No signal but [sig] is pending whose delivery would end the process. *)
Definition no_other_pending (sig : Z) (w : process) : Prop :=
  forall sig', sig' ∈ pending w -> terminates w sig' = true -> sig' = sig.

(** The signal SIGTERM is ignored, as in a process started with its
    disposition set to SIG_IGN, and the call of [sigaction] fails. *)
Definition ignoring_process : process :=
  {| calls := []; log := []; blocked := list_to_set wait_mask;
     disposition := {[ SIGCHLD := handleSIGCHLD; SIGTERM := SIG_IGN ]};
     pending := ∅; status := Running |}.

Definition os_sigaction_failure : os_results :=
  {| sigwait_result := 0; clearSignalMask_result := Success; sigaction_result := -1 |}.

(** *** Vocabulary of the statements about the handler table *)

Definition registered_prefixes (table : list registration) : list string :=
  omap registered_prefix table.

(** One of the two strings starts with the other. *)
Definition comparable (p q : string) : bool :=
  String.prefix p q || String.prefix q p.

(** The prefixes [httpServerAddHandlers] writes out, the unsupported-browser
    path left out. *)
Definition literal_prefixes (proxyLocalhost : bool) : list string :=
  registered_prefixes
    (filter (fun r => registered_prefix r <> Some "")
       (httpServerAddHandlers
          {| wwwLocalPath := ""; wwwProxyLocalhost := proxyLocalhost |}
          id String.append String.append (fun _ _ => (Success, ""))
          "" no_handler no_handler (fun _ => no_handler) no_handler no_handler
          id id)).

(** ** The rest of the option conversions (Json.cpp, lines 45-60) *)

Definition toJsonString (val : string) : Value := String_ val.

(** [json::Object] is written with [optionsJson[key] = value]: a mapping
    with one value for each name, the assignment replacing the value a name
    already has.  The finite map holds its content; the order in which a
    loop meets the members is the affair of the container type, which is
    outside the excerpt. *)
Fixpoint toJsonObject_loop (options : list Pair) (optionsJson : gmap string Value)
  : gmap string Value :=
  match options with
  | [] => optionsJson
  | option :: rest =>
      toJsonObject_loop rest (<[ fst option := toJsonString (snd option) ]> optionsJson)
  end.

Definition toJsonObject (options : list Pair) : gmap string Value :=
  toJsonObject_loop options ∅.

(** *** Vocabulary of the further statements about the JSON helpers *)

(** The member for the name [entry.1] whose value is the array of the
    strings [entry.2]. *)
Definition strings_member (entry : string * list string) : Member :=
  (entry.1, Array_ (String_ <$> entry.2)).

(** The value of the last pair of [options] whose key is [key]. *)
Fixpoint last_value (key : string) (options : list Pair) : option string :=
  match options with
  | [] => None
  | option :: rest =>
      match last_value key rest with
      | Some value => Some value
      | None => if String.eqb (fst option) key then Some (snd option) else None
      end
  end.

(** ** The start of the server ([httpServerInit], lines 143-154, and [main],
    lines 431-607) *)

#[global] Instance Error_eq_dec : EqDecision Error.
Proof. solve_decision. Defined.

Module Main.

(** The calls [main] makes to its collaborators, in program order. *)
Inductive step : Type :=
| initializeSystemLog
| ignoreSignal_SigPipe
| options_read
| reportWarnings
| daemonize
| ignoreTerminalSignals
| setUMask
| system_realUserIsRoot
| setResourceLimit
| makeCurrentPath
| crypto_initialize
| secure_cookie_initialize
| session_proxy_initialize
| httpServerCreate
| setAbortOnResourceError (value : bool)
| setScheduledCommandInterval (milliseconds : Z)
| server_httpServerInit
| process_supervisor_initialize
| initializeMonitorClient
| addLogWriter
| overlay_initialize
| r_environment_initialize
| overlay_requireLocalR
| reportError
| offline_httpServerAddHandlers
| httpServerAddHandlers
| addins_initialize
| auth_handler_isRegistered
| pam_auth_initialize
| temporarilyDropPriv
| runVerifyInstallationSession
| overlay_startup
| setNotFoundHandler
| httpServer_run
| exitFailure (error : Error).

#[global] Instance step_eq_dec : EqDecision step.
Proof. solve_decision. Defined.

(** What the collaborators answer in one run of [main]. *)
Record answers : Type := {
  throws : step -> bool;             (* the call raises an exception *)
  status_exit : bool;                (* status.exit() *)
  status_exitCode : Z;               (* status.exitCode() *)
  optionsWarnings : string;
  serverDaemonize : bool;
  daemonize_error : Error;
  ignoreTerminalSignals_error : Error;
  serverSetUmask : bool;
  realUserIsRoot : bool;
  setResourceLimit_error : Error;
  makeCurrentPath_error : Error;
  secure_cookie_error : Error;
  session_proxy_error : Error;
  httpServerInit_error : Error;
  process_supervisor_error : Error;
  verifyInstallation : bool;
  overlay_initialize_error : Error;
  r_environment_detected : bool;
  requireLocalR : bool;
  serverOffline : bool;
  addins_error : Error;
  auth_isRegistered : bool;
  pam_auth_error : Error;
  serverUser : string;
  temporarilyDropPriv_error : Error;
  runVerifyInstallationSession_error : Error;
  overlay_startup_error : Error;
  run_error : Error
}.

Definition EXIT_SUCCESS : Z := 0.

(** A piece of [main]: from the calls made so far to the calls made after
    it, with [inl code] when [main] has returned [code] and [inr x] when
    the piece ended with the value [x] and [main] goes on. *)
Definition M (A : Type) : Type := list step -> list step * (Z + A).

#[global] Instance M_ret : MRet M := fun A x trace => (trace, inr x).
#[global] Instance M_bind : MBind M := fun A B f m trace =>
  match m trace with
  | (trace', inl code) => (trace', inl code)
  | (trace', inr x) => f x trace'
  end.

(** [return code;] *)
Definition return_ {A} (code : Z) : M A := fun trace => (trace, inl code).

Section Run.

Variable a : answers.

(** A call to a collaborator.  The whole body of [main] is in a [try]
    block: an exception ends [main] with [EXIT_FAILURE] (lines 603-606). *)
Definition call (s : step) : M unit := fun trace =>
  if throws a s
  then (trace ++ [s], inl EXIT_FAILURE)
  else (trace ++ [s], inr tt).

(** Modelled from the spec: [core::system::exitFailure], which is outside
    the excerpt: initialization errors are "logged with context and cause
    the process to exit with a failure status". *)
Definition return_exitFailure {A} (error : Error) : M A :=
  call (exitFailure error) ≫= fun _ => return_ EXIT_FAILURE.

(** [error = collaborator(); if (error) return exitFailure(error, ..);] *)
Definition check (s : step) (error : Error) : M unit :=
  call s ≫= fun _ =>
  if is_error error then return_exitFailure error else mret tt.

Definition when (b : bool) (m : M unit) : M unit :=
  if b then m else mret tt.

(** [httpServerInit] (lines 143-154). *)
Definition httpServerInit : M Error :=
  call httpServerCreate ≫= fun _ =>
  (* set server options *)
  call (setAbortOnResourceError true) ≫= fun _ =>
  call (setScheduledCommandInterval 500) ≫= fun _ =>
  (* initialize *)
  call server_httpServerInit ≫= fun _ =>
  mret (httpServerInit_error a).

(** [main] up to the call of [waitForSignals] (lines 431-593): [inr tt]
    when line 596 is reached. *)
Definition main_startup : M unit :=
  (* initialize log *)
  call initializeSystemLog ≫= fun _ =>
  (* ignore SIGPIPE *)
  call ignoreSignal_SigPipe ≫= fun _ =>
  (* read program options *)
  call options_read ≫= fun _ =>
  when (status_exit a)
    (when (negb (String.eqb (optionsWarnings a) "")) (call reportWarnings) ≫= fun _ =>
     return_ (status_exitCode a)) ≫= fun _ =>
  (* daemonize if requested *)
  when (serverDaemonize a)
    (check daemonize (daemonize_error a) ≫= fun _ =>
     check ignoreTerminalSignals (ignoreTerminalSignals_error a) ≫= fun _ =>
     when (serverSetUmask a) (call setUMask)) ≫= fun _ =>
  (* increase the number of open files allowed *)
  call system_realUserIsRoot ≫= fun _ =>
  when (realUserIsRoot a)
    (check setResourceLimit (setResourceLimit_error a)) ≫= fun _ =>
  (* set working directory *)
  check makeCurrentPath (makeCurrentPath_error a) ≫= fun _ =>
  (* initialize crypto utils *)
  call crypto_initialize ≫= fun _ =>
  (* initialize secure cookie module *)
  check secure_cookie_initialize (secure_cookie_error a) ≫= fun _ =>
  (* initialize the session proxy *)
  check session_proxy_initialize (session_proxy_error a) ≫= fun _ =>
  (* initialize http server *)
  httpServerInit ≫= fun error =>
  (if is_error error then return_exitFailure error else mret tt) ≫= fun _ =>
  (* initialize the process supervisor (needs to happen post http server
     init for access to the scheduled command list) *)
  check process_supervisor_initialize (process_supervisor_error a) ≫= fun _ =>
  (* initialize monitor (needs to happen post http server init for access
     to the server's io service) *)
  call initializeMonitorClient ≫= fun _ =>
  when (negb (verifyInstallation a)) (call addLogWriter) ≫= fun _ =>
  (* call overlay initialize *)
  check overlay_initialize (overlay_initialize_error a) ≫= fun _ =>
  (* detect R environment variables (calls R (and this forks) so must
     happen after daemonize) *)
  call r_environment_initialize ≫= fun _ =>
  when (negb (r_environment_detected a))
    (call overlay_requireLocalR ≫= fun _ =>
     when (requireLocalR a)
       (call reportError ≫= fun _ => return_ EXIT_FAILURE)) ≫= fun _ =>
  (* add handlers and initiliaze addins (offline has distinct behavior) *)
  (if serverOffline a
   then call offline_httpServerAddHandlers
   else
     call httpServerAddHandlers ≫= fun _ =>
     check addins_initialize (addins_error a) ≫= fun _ =>
     (* initialize pam auth if we don't already have an auth handler *)
     call auth_handler_isRegistered ≫= fun _ =>
     when (negb (auth_isRegistered a))
       (check pam_auth_initialize (pam_auth_error a))) ≫= fun _ =>
  (* give up root privilige if requested *)
  when (negb (String.eqb (serverUser a) ""))
    (check temporarilyDropPriv (temporarilyDropPriv_error a)) ≫= fun _ =>
  (* run special verify installation mode if requested *)
  when (verifyInstallation a)
    (check runVerifyInstallationSession (runVerifyInstallationSession_error a) ≫= fun _ =>
     return_ EXIT_SUCCESS) ≫= fun _ =>
  (* call overlay startup *)
  check overlay_startup (overlay_startup_error a) ≫= fun _ =>
  (* add http server not found handler *)
  call setNotFoundHandler ≫= fun _ =>
  (* run http server *)
  check httpServer_run (run_error a).

End Run.

(** *** Vocabulary of the statements about [main] *)

(** Every occurrence of [later] in the trace has [earlier] before it. *)
Fixpoint precedes (earlier later : step) (seen : bool) (trace : list step) : bool :=
  match trace with
  | [] => true
  | s :: rest =>
      (negb (bool_decide (s = later)) || seen)
      && precedes earlier later (seen || bool_decide (s = earlier)) rest
  end.

Definition occurs (s : step) (trace : list step) : bool :=
  bool_decide (s ∈ trace).

Definition is_exitFailure (s : step) : bool :=
  match s with exitFailure _ => true | _ => false end.

Definition returned (code : Z) (result : Z + unit) : bool :=
  match result with inl c => Z.eqb c code | inr _ => false end.

Definition goes_on (result : Z + unit) : bool :=
  match result with inl _ => false | inr _ => true end.

(** The order of the calls. *)
Definition order_facts (a : answers) (trace : list step) : bool :=
  precedes server_httpServerInit process_supervisor_initialize false trace
  && precedes server_httpServerInit initializeMonitorClient false trace
  && precedes setNotFoundHandler httpServer_run false trace
  && precedes overlay_startup httpServer_run false trace
  && implb (serverDaemonize a)
       (precedes daemonize r_environment_initialize false trace)
  && implb (negb (String.eqb (serverUser a) ""))
       (precedes temporarilyDropPriv runVerifyInstallationSession false trace
        && precedes temporarilyDropPriv overlay_startup false trace
        && precedes temporarilyDropPriv httpServer_run false trace)
  && (if serverOffline a
      then precedes offline_httpServerAddHandlers httpServer_run false trace
      else precedes httpServerAddHandlers httpServer_run false trace
           && precedes httpServerAddHandlers temporarilyDropPriv false trace).

(** The calls that are not made. *)
Definition absence_facts (a : answers) (trace : list step) (result : Z + unit) : bool :=
  (if serverOffline a
   then negb (occurs httpServerAddHandlers trace)
        && negb (occurs addins_initialize trace)
        && negb (occurs auth_handler_isRegistered trace)
        && negb (occurs pam_auth_initialize trace)
   else negb (occurs offline_httpServerAddHandlers trace)
        && implb (auth_isRegistered a) (negb (occurs pam_auth_initialize trace)))
  && implb (verifyInstallation a)
       (negb (occurs addLogWriter trace)
        && negb (occurs overlay_startup trace)
        && negb (occurs setNotFoundHandler trace)
        && negb (occurs httpServer_run trace)
        && negb (goes_on result))
  && implb (String.eqb (serverUser a) "") (negb (occurs temporarilyDropPriv trace))
  && implb (negb (serverDaemonize a))
       (negb (occurs daemonize trace) && negb (occurs setUMask trace))
  && implb (status_exit a)
       (negb (occurs makeCurrentPath trace) && negb (occurs httpServer_run trace)).

(** The exit status. *)
Definition exit_facts (a : answers) (trace : list step) (result : Z + unit) : bool :=
  implb (returned 0 result)
    (status_exit a && Z.eqb (status_exitCode a) 0
     || negb (status_exit a) && verifyInstallation a
        && negb (is_error (runVerifyInstallationSession_error a))
        && occurs runVerifyInstallationSession trace)
  && implb (existsb is_exitFailure trace) (returned EXIT_FAILURE result)
  && implb (occurs reportError trace) (returned EXIT_FAILURE result)
  && implb (negb (status_exit a))
       (returned 0 result || returned EXIT_FAILURE result || goes_on result).

(** What has happened when line 596 is reached. *)
Definition serving_facts (a : answers) (trace : list step) (result : Z + unit) : bool :=
  implb (goes_on result)
    (bool_decide (last trace = Some httpServer_run)
     && negb (existsb is_exitFailure trace)
     && negb (status_exit a)
     && negb (verifyInstallation a)
     && (r_environment_detected a || negb (requireLocalR a))
     && forallb (fun e => negb (is_error e))
          [makeCurrentPath_error a; secure_cookie_error a; session_proxy_error a;
           httpServerInit_error a; process_supervisor_error a;
           overlay_initialize_error a; overlay_startup_error a; run_error a]
     && implb (serverDaemonize a)
          (negb (is_error (daemonize_error a))
           && negb (is_error (ignoreTerminalSignals_error a)))
     && implb (realUserIsRoot a) (negb (is_error (setResourceLimit_error a)))
     && implb (negb (serverOffline a))
          (negb (is_error (addins_error a))
           && implb (negb (auth_isRegistered a)) (negb (is_error (pam_auth_error a))))
     && implb (negb (String.eqb (serverUser a) ""))
          (negb (is_error (temporarilyDropPriv_error a)))).

Definition main_facts (a : answers) (trace : list step) (result : Z + unit) : Prop :=
  order_facts a trace = true /\
  absence_facts a trace result = true /\
  exit_facts a trace result = true /\
  serving_facts a trace result = true /\
  (goes_on result = true -> forallb (fun s => negb (throws a s)) trace = true).

(** Answers under which no call raises an exception and nothing fails. *)
Definition all_well : answers :=
  {| throws := fun _ => false;
     status_exit := false; status_exitCode := 0; optionsWarnings := "";
     serverDaemonize := true; daemonize_error := Success;
     ignoreTerminalSignals_error := Success; serverSetUmask := true;
     realUserIsRoot := true; setResourceLimit_error := Success;
     makeCurrentPath_error := Success; secure_cookie_error := Success;
     session_proxy_error := Success; httpServerInit_error := Success;
     process_supervisor_error := Success; verifyInstallation := false;
     overlay_initialize_error := Success; r_environment_detected := true;
     requireLocalR := false; serverOffline := false; addins_error := Success;
     auth_isRegistered := false; pam_auth_error := Success;
     serverUser := "rstudio-server"; temporarilyDropPriv_error := Success;
     runVerifyInstallationSession_error := Success;
     overlay_startup_error := Success; run_error := Success |}.

(** The calls of a run of [main_startup] and its result. *)
Definition calls_of (a : answers) : list step := (main_startup a []).1.
Definition result_of (a : answers) : Z + unit := (main_startup a []).2.

(** The calls of a run in which the options ask to exit (lines 434-449). *)
Definition options_exit_calls (a : answers) : list step :=
  [initializeSystemLog; ignoreSignal_SigPipe; options_read]
  ++ (if String.eqb (optionsWarnings a) "" then [] else [reportWarnings]).

(** Every occurrence of [later] has an occurrence of [earlier] before it. *)
Definition always_after (earlier later : step) (trace : list step) : Prop :=
  forall pre post, trace = pre ++ later :: post -> earlier ∈ pre.

End Main.


(** Answers used to run [main] on: the offline server verifying its
    installation, options that ask to exit, and a working directory that
    cannot be entered. *)
Definition offline_verify : Main.answers :=
  {| Main.throws := fun _ => false;
     Main.status_exit := false; Main.status_exitCode := 0;
     Main.optionsWarnings := "";
     Main.serverDaemonize := false; Main.daemonize_error := Success;
     Main.ignoreTerminalSignals_error := Success; Main.serverSetUmask := false;
     Main.realUserIsRoot := false; Main.setResourceLimit_error := Success;
     Main.makeCurrentPath_error := Success; Main.secure_cookie_error := Success;
     Main.session_proxy_error := Success; Main.httpServerInit_error := Success;
     Main.process_supervisor_error := Success; Main.verifyInstallation := true;
     Main.overlay_initialize_error := Success;
     Main.r_environment_detected := true; Main.requireLocalR := false;
     Main.serverOffline := true; Main.addins_error := Success;
     Main.auth_isRegistered := true; Main.pam_auth_error := Success;
     Main.serverUser := ""; Main.temporarilyDropPriv_error := Success;
     Main.runVerifyInstallationSession_error := Success;
     Main.overlay_startup_error := Success; Main.run_error := Success |}.

(** The options ask to exit with status 0, with a warning to report. *)
Definition asks_to_exit : Main.answers :=
  {| Main.throws := fun _ => false;
     Main.status_exit := true; Main.status_exitCode := 0;
     Main.optionsWarnings := "unknown option";
     Main.serverDaemonize := true; Main.daemonize_error := Success;
     Main.ignoreTerminalSignals_error := Success; Main.serverSetUmask := true;
     Main.realUserIsRoot := true; Main.setResourceLimit_error := Success;
     Main.makeCurrentPath_error := Success; Main.secure_cookie_error := Success;
     Main.session_proxy_error := Success; Main.httpServerInit_error := Success;
     Main.process_supervisor_error := Success; Main.verifyInstallation := false;
     Main.overlay_initialize_error := Success;
     Main.r_environment_detected := true; Main.requireLocalR := false;
     Main.serverOffline := false; Main.addins_error := Success;
     Main.auth_isRegistered := false; Main.pam_auth_error := Success;
     Main.serverUser := "rstudio-server"; Main.temporarilyDropPriv_error := Success;
     Main.runVerifyInstallationSession_error := Success;
     Main.overlay_startup_error := Success; Main.run_error := Success |}.

Definition makeCurrentPath_fails : Main.answers :=
  {| Main.throws := fun _ => false;
     Main.status_exit := false; Main.status_exitCode := 0;
     Main.optionsWarnings := "";
     Main.serverDaemonize := false; Main.daemonize_error := Success;
     Main.ignoreTerminalSignals_error := Success; Main.serverSetUmask := false;
     Main.realUserIsRoot := false; Main.setResourceLimit_error := Success;
     Main.makeCurrentPath_error := systemError 2 "ServerMain.cpp";
     Main.secure_cookie_error := Success;
     Main.session_proxy_error := Success; Main.httpServerInit_error := Success;
     Main.process_supervisor_error := Success; Main.verifyInstallation := false;
     Main.overlay_initialize_error := Success;
     Main.r_environment_detected := true; Main.requireLocalR := false;
     Main.serverOffline := false; Main.addins_error := Success;
     Main.auth_isRegistered := true; Main.pam_auth_error := Success;
     Main.serverUser := ""; Main.temporarilyDropPriv_error := Success;
     Main.runVerifyInstallationSession_error := Success;
     Main.overlay_startup_error := Success; Main.run_error := Success |}.


(** [wp m Q trace]: after the piece [m] of [main], run from the calls
    [trace], the calls made and the result satisfy [Q]. *)
Definition wp {A} (m : Main.M A) (Q : list Main.step -> Z + A -> Prop)
  (trace : list Main.step) : Prop :=
  Q (m trace).1 (m trace).2.

(** [main] as a whole: the status with which the process ends, or in which
    it is when nothing more is delivered. *)
Definition main_status
  (numberToString : Z -> string) (ERROR_LOCATION : string)
  (a : Main.answers) (s : setup_results) (delivered : list (os_results * Z))
  (w : process) : proc_status :=
  match Main.result_of a with
  | inl code => Exited code
  | inr _ => status (main_wait numberToString ERROR_LOCATION s delivered w)
  end.

(** * Properties *)

(** ** The definitions on small inputs *)

Example replace_all_copy_escape :
  Str.replace_all_copy "a=b==c" "=" "\=" = "a\=b\=\=c".
Proof. reflexivity. Qed.

Example replace_all_copy_unescape :
  Str.replace_all_copy "a\=b\\==\" "\=" "=" = "a=b\==\".
Proof. reflexivity. Qed.

Example regex_search_first : Str.regex_search rx "k\=k=v=w" = Some 3.
Proof. reflexivity. Qed.

Example regex_search_escaped_only : Str.regex_search rx "\=k\=" = None.
Proof. reflexivity. Qed.

Example regex_search_leading : Str.regex_search rx "=v" = None.
Proof. reflexivity. Qed.

Example substr_past_the_end :
  Str.substr "abc" 4 None = Throw (out_of_range "basic_string::substr").
Proof. reflexivity. Qed.

Example toJsonArray_no_value : toJsonArray [("quiet", "")] = [String_ "quiet"].
Proof. reflexivity. Qed.

Example optionsFromJson_skips :
  optionsFromJson [Integer 3; String_ "a=b"; Null; String_ "c"] =
  Ok [("a", "b"); ("c", "")].
Proof. reflexivity. Qed.

Example fillMap_two_members :
  fillMap [("a", Array_ [String_ "x"; String_ "y"]); ("b", Array_ [])] ∅ =
  Ok (true, <[ "b" := [] ]> (<[ "a" := ["x"; "y"] ]> ∅)).
Proof. reflexivity. Qed.

(** From the start of [waitForSignals]: a child exits, then SIGTERM comes. *)
Example main_wait_sigterm :
  let w :=
    main_wait (fun _ => "") "ServerMain.cpp"
      {| setup_sigaction_result := 0; setup_errno := 0; setup_sigmask_result := 0 |}
      [(os_success, SIGCHLD); (os_success, SIGTERM); (os_success, SIGHUP)]
      {| calls := []; log := []; blocked := ∅; disposition := ∅; pending := ∅;
         status := Running |} in
  status w = Signaled SIGTERM /\
  calls w =
    [sigaction SIGCHLD handleSIGCHLD; pthread_sigmask_block wait_mask;
     notifySIGCHLD;
     overlay_shutdown; clearSignalMask; sigaction SIGTERM SIG_DFL; kill_self SIGTERM].
Proof. split; vm_compute; reflexivity. Qed.

(** When [sigwait] fails the function returns and [main] exits with failure. *)
Example main_wait_sigwait_fails :
  status
    (main_wait (fun _ => "") "ServerMain.cpp"
       {| setup_sigaction_result := 0; setup_errno := 0; setup_sigmask_result := 0 |}
       [({| sigwait_result := 22; clearSignalMask_result := Success;
            sigaction_result := 0 |}, 0%Z)]
       {| calls := []; log := []; blocked := ∅; disposition := ∅; pending := ∅;
          status := Running |}) = Exited EXIT_FAILURE.
Proof. vm_compute. reflexivity. Qed.

Example main_startup_all_well :
  Main.main_startup Main.all_well [] =
  ([Main.initializeSystemLog; Main.ignoreSignal_SigPipe; Main.options_read;
    Main.daemonize; Main.ignoreTerminalSignals; Main.setUMask;
    Main.system_realUserIsRoot; Main.setResourceLimit; Main.makeCurrentPath; Main.crypto_initialize;
    Main.secure_cookie_initialize; Main.session_proxy_initialize;
    Main.httpServerCreate; Main.setAbortOnResourceError true;
    Main.setScheduledCommandInterval 500; Main.server_httpServerInit;
    Main.process_supervisor_initialize; Main.initializeMonitorClient;
    Main.addLogWriter; Main.overlay_initialize; Main.r_environment_initialize;
    Main.httpServerAddHandlers; Main.addins_initialize;
    Main.auth_handler_isRegistered; Main.pam_auth_initialize;
    Main.temporarilyDropPriv; Main.overlay_startup; Main.setNotFoundHandler;
    Main.httpServer_run], inr tt).
Proof. reflexivity. Qed.
(** ** Escaping and the split pattern *)

Lemma prefix_cons a s1 b s2 :
  String.prefix (String a s1) (String b s2) = Ascii.eqb b a && String.prefix s1 s2.
Proof.
  cbn [String.prefix]. destruct (ascii_dec a b) as [<-|Hne].
  - now rewrite Ascii.eqb_refl.
  - destruct (Ascii.eqb_spec b a) as [->|_]; [now destruct Hne | reflexivity].
Qed.

Lemma prefix_empty s : String.prefix "" s = true.
Proof. now destruct s. Qed.

Lemma escape_cons c s :
  escape (String c s) =
  if Ascii.eqb c Str.equals then String Str.backslash (String Str.equals (escape s))
  else String c (escape s).
Proof.
  unfold escape, Str.replace_all_copy, Str.equals, Str.backslash.
  cbn [Str.replace_from]. rewrite prefix_cons, prefix_empty, andb_true_r.
  destruct (Ascii.eqb c "="); reflexivity.
Qed.

Lemma unescape_cons c s :
  unescape (String c s) =
  if Ascii.eqb c Str.backslash && starts_with_equals s
  then String Str.equals (unescape (Str.drop 1 s))
  else String c (unescape s).
Proof.
  unfold unescape, Str.replace_all_copy, starts_with_equals, Str.equals, Str.backslash.
  cbn [Str.replace_from]. rewrite prefix_cons.
  destruct (Ascii.eqb c "\"); [|reflexivity].
  destruct s as [|d s]; [reflexivity|].
  rewrite prefix_cons, prefix_empty. cbn [Str.match_here Str.atom_matches andb].
  destruct (Ascii.eqb d "="); reflexivity.
Qed.

Lemma escape_head s : starts_with_equals (escape s) = false.
Proof.
  destruct s as [|c s]; [reflexivity|]. rewrite escape_cons.
  destruct (Ascii.eqb_spec c Str.equals) as [->|Hc]; [reflexivity|].
  unfold starts_with_equals. cbn. apply andb_false_intro1.
  now apply Ascii.eqb_neq.
Qed.

Lemma unescape_escape s : unescape (escape s) = s.
Proof.
  induction s as [|c s IH]; [reflexivity|].
  rewrite escape_cons.
  destruct (Ascii.eqb_spec c Str.equals) as [->|Hc].
  - transitivity (String Str.equals (unescape (escape s))).
    + now rewrite unescape_cons.
    + now rewrite IH.
  - rewrite unescape_cons, escape_head, andb_false_r. now rewrite IH.
Qed.

Lemma escape_empty s : escape s = "" <-> s = "".
Proof.
  split; [|now intros ->].
  destruct s as [|c s]; [reflexivity|]. rewrite escape_cons.
  now destruct (Ascii.eqb c Str.equals).
Qed.

Lemma escape_no_equals s : contains_equals s = false -> escape s = s.
Proof.
  induction s as [|c s IH]; [reflexivity|]. cbn [contains_equals].
  intros [Hc Hs]%orb_false_elim. rewrite escape_cons, Hc. now rewrite IH.
Qed.

Lemma regex_search_nil : Str.regex_search rx "" = None.
Proof. reflexivity. Qed.

Lemma regex_search_cons c s :
  Str.regex_search rx (String c s) =
  if negb (Ascii.eqb c Str.backslash) && starts_with_equals s then Some 0
  else S <$> Str.regex_search rx s.
Proof.
  unfold starts_with_equals, rx.
  cbn [Str.regex_search Str.match_here Str.atom_matches].
  destruct s as [|d s]; [now rewrite andb_false_r|].
  now rewrite andb_true_r.
Qed.

(** A successful search leaves room for the two matched characters. *)
Lemma regex_search_bound s position :
  Str.regex_search rx s = Some position -> position + 2 <= String.length s.
Proof.
  revert position. induction s as [|c s IH]; intros position; [discriminate|].
  rewrite regex_search_cons.
  destruct (negb (Ascii.eqb c Str.backslash) && starts_with_equals s) eqn:Hm.
  - intros [= <-]. apply andb_prop in Hm as [_ Hs].
    destruct s; [discriminate | cbn; lia].
  - destruct (Str.regex_search rx s) as [q|]; [|discriminate].
    intros [= <-]. specialize (IH q eq_refl). cbn. lia.
Qed.

(** Inside an escaped string every [=] follows a backslash. *)
Lemma regex_search_escape k : Str.regex_search rx (escape k) = None.
Proof.
  induction k as [|c k IH]; [reflexivity|].
  rewrite escape_cons.
  destruct (Ascii.eqb_spec c Str.equals) as [->|Hc].
  - rewrite regex_search_cons. cbn [negb andb Ascii.eqb].
    replace (negb (Ascii.eqb Str.backslash Str.backslash)) with false by reflexivity.
    cbn [andb]. rewrite regex_search_cons, escape_head, andb_false_r.
    now rewrite IH.
  - rewrite regex_search_cons, escape_head, andb_false_r. now rewrite IH.
Qed.

Lemma append_nil t : "" +:+ t = t.
Proof. reflexivity. Qed.

Lemma append_cons c s t : String c s +:+ t = String c (s +:+ t).
Proof. reflexivity. Qed.

Lemma starts_with_equals_app s t :
  s <> "" -> starts_with_equals (s +:+ t) = starts_with_equals s.
Proof. destruct s; [congruence | reflexivity]. Qed.

Lemma escape_length_pos k : k <> "" -> 1 <= String.length (escape k).
Proof.
  destruct k as [|c k]; [congruence|]. intros _. rewrite escape_cons.
  destruct (Ascii.eqb c Str.equals); cbn; lia.
Qed.

Lemma delimitable_cons c k :
  delimitable (String c k) =
  match k with
  | EmptyString => negb (Ascii.eqb c Str.backslash)
  | String _ _ => delimitable k
  end.
Proof. now destruct k. Qed.

(** After a delimitable key the search stops on the last character of the
    escaped key, which is the character before the delimiter. *)
Lemma regex_search_encoded k w :
  delimitable k = true ->
  Str.regex_search rx (escape k +:+ String Str.equals w) =
  Some (String.length (escape k) - 1).
Proof.
  induction k as [|c k IH]; [discriminate|].
  rewrite delimitable_cons, escape_cons. intros Hk.
  destruct k as [|d k'].
  - destruct (Ascii.eqb_spec c Str.equals) as [->|Hc]; [reflexivity|].
    change (escape "") with "". rewrite append_cons, append_nil.
    rewrite regex_search_cons, Hk. reflexivity.
  - specialize (IH Hk).
    pose proof (escape_length_pos (String d k') ltac:(discriminate)) as Hlen.
    set (ek := escape (String d k')) in *.
    assert (Hhd : starts_with_equals (ek +:+ String Str.equals w) = false).
    { rewrite starts_with_equals_app; [apply escape_head|].
      intros He. subst ek. rewrite He in Hlen. cbn in Hlen. lia. }
    destruct (Ascii.eqb_spec c Str.equals) as [->|Hc].
    + rewrite !append_cons, regex_search_cons.
      replace (negb (Ascii.eqb Str.backslash Str.backslash)) with false by reflexivity.
      cbn [andb]. rewrite regex_search_cons, Hhd, andb_false_r, IH.
      cbn [String.length fmap option_fmap option_map]. f_equal. lia.
    + rewrite append_cons, regex_search_cons, Hhd, andb_false_r, IH.
      cbn [String.length fmap option_fmap option_map]. f_equal. lia.
Qed.

Lemma take_app s t : Str.take (String.length s) (s +:+ t) = s.
Proof.
  induction s as [|c s IH]; [now destruct t|].
  rewrite append_cons. cbn [String.length Str.take]. now rewrite IH.
Qed.

Lemma drop_app s t : Str.drop (String.length s) (s +:+ t) = t.
Proof. induction s as [|c s IH]; [reflexivity | apply IH]. Qed.

Lemma take_0_drop n s : Str.take n (Str.drop 0 s) = Str.take n s.
Proof. now destruct s. Qed.

Lemma append_length s t :
  String.length (s +:+ t) = String.length s + String.length t.
Proof.
  induction s as [|c s IH]; [reflexivity|].
  rewrite append_cons. cbn [String.length]. now rewrite IH.
Qed.

Lemma drop_app_cons s c t : Str.drop (S (String.length s)) (s +:+ String c t) = t.
Proof. induction s as [|d s IH]; [reflexivity | apply IH]. Qed.

Lemma regex_search_no_equals s :
  contains_equals s = false -> Str.regex_search rx s = None.
Proof.
  induction s as [|c s IH]; [reflexivity|]. cbn [contains_equals].
  intros [_ Hs]%orb_false_elim. rewrite regex_search_cons, (IH Hs).
  destruct s as [|d s]; [now rewrite andb_false_r|].
  cbn [contains_equals] in Hs. apply orb_false_elim in Hs as [Hd _].
  unfold starts_with_equals. cbn [Str.match_here Str.atom_matches].
  now rewrite Hd, andb_false_r.
Qed.

Lemma unescape_no_equals s : contains_equals s = false -> unescape s = s.
Proof.
  induction s as [|c s IH]; [reflexivity|]. cbn [contains_equals].
  intros [_ Hs]%orb_false_elim. rewrite unescape_cons, (IH Hs).
  destruct s as [|d s]; [now rewrite andb_false_r|].
  cbn [contains_equals] in Hs. apply orb_false_elim in Hs as [Hd _].
  unfold starts_with_equals. cbn [Str.match_here Str.atom_matches].
  now rewrite Hd, andb_false_r.
Qed.

(** ** The loops as list functions *)

Lemma toJsonArray_loop_spec options optionsArray :
  toJsonArray_loop options optionsArray =
  optionsArray ++ map (fun option => String_ (encodeOption option)) options.
Proof.
  revert optionsArray. induction options as [|o options IH]; intros acc; cbn.
  - now rewrite app_nil_r.
  - now rewrite IH, <- app_assoc.
Qed.

Lemma toJsonArray_spec options :
  toJsonArray options = map (fun option => String_ (encodeOption option)) options.
Proof. apply toJsonArray_loop_spec. Qed.

Lemma decodeOption_returns optionStr : exists option, decodeOption optionStr = Ok option.
Proof.
  unfold decodeOption.
  destruct (Str.regex_search rx optionStr) as [position|] eqn:Hs; [|eauto].
  apply regex_search_bound in Hs. unfold Str.substr.
  destruct (Nat.ltb_spec (String.length optionStr) 0) as [?|_]; [lia|].
  destruct (Nat.ltb_spec (String.length optionStr) (position + 2)) as [?|_]; [lia|].
  cbn. eauto.
Qed.

Lemma optionsFromJson_loop_string s rest options :
  optionsFromJson_loop (String_ s :: rest) options =
  option ← decodeOption s; optionsFromJson_loop rest (options ++ [option]).
Proof. reflexivity. Qed.

Lemma optionsFromJson_loop_spec optionsJson options :
  exists decoded,
    optionsFromJson_loop optionsJson options = Ok (options ++ decoded) /\
    Forall2 (fun s option => decodeOption s = Ok option)
            (string_entries optionsJson) decoded.
Proof.
  revert options. induction optionsJson as [|value rest IH]; intros options.
  - exists []. split; [cbn; now rewrite app_nil_r | constructor].
  - cbn [optionsFromJson_loop].
    destruct value; cbn [isType type negb bool_decide decide_rel];
      try (destruct (IH options) as (decoded & -> & HF); exists decoded;
           split; [reflexivity | exact HF]).
    destruct (decodeOption_returns s) as [o Ho].
    destruct (IH (options ++ [o])) as (decoded & Hrun & HF).
    exists (o :: decoded). split.
    + cbn. rewrite Ho. cbn. rewrite Hrun. now rewrite <- app_assoc.
    + cbn. now constructor.
Qed.

Lemma optionsFromJsonObject_loop_spec optionsJson options :
  optionsFromJsonObject_loop optionsJson options =
  Ok (options ++ string_members optionsJson).
Proof.
  revert options. induction optionsJson as [|[name value] rest IH]; intros options.
  - cbn. now rewrite app_nil_r.
  - cbn [optionsFromJsonObject_loop fst snd].
    destruct value; cbn; rewrite IH; try reflexivity.
    now rewrite <- app_assoc.
Qed.

(** Decoding undoes encoding on a splittable pair. *)
Lemma decode_encode option :
  splittable option = true -> decodeOption (encodeOption option) = Ok option.
Proof.
  destruct option as [k v]. unfold splittable, encodeOption. cbn [fst snd].
  fold (escape k) (escape v). intros Hsplit.
  destruct (String.eqb_spec (escape v) "") as [Hv|Hv].
  - apply escape_empty in Hv as ->. cbn [negb].
    unfold decodeOption. rewrite regex_search_escape.
    fold (unescape (escape k)). now rewrite unescape_escape.
  - cbn [negb].
    assert (Hk : delimitable k = true).
    { revert Hsplit. destruct (String.eqb_spec v "") as [E|_]; [|easy].
      subst v. now destruct Hv. }
    assert (Hlen : 1 <= String.length (escape k)).
    { apply escape_length_pos. intros ->. discriminate. }
    change ("=" +:+ escape v) with (String Str.equals (escape v)).
    unfold decodeOption. rewrite (regex_search_encoded k _ Hk).
    unfold Str.substr. rewrite append_length. cbn [String.length].
    destruct (Nat.ltb_spec (String.length (escape k) + S (String.length (escape v))) 0)
      as [?|_]; [lia|].
    destruct (Nat.ltb_spec (String.length (escape k) + S (String.length (escape v)))
                (String.length (escape k) - 1 + 2)) as [?|_]; [lia|].
    replace (String.length (escape k) - 1 + 1) with (String.length (escape k)) by lia.
    replace (String.length (escape k) - 1 + 2) with (S (String.length (escape k))) by lia.
    rewrite take_0_drop, take_app, drop_app_cons. cbn.
    fold (unescape (escape k)) (unescape (escape v)).
    now rewrite !unescape_escape.
Qed.

Lemma optionsFromJson_loop_encoded options acc :
  forallb splittable options = true ->
  optionsFromJson_loop (map (fun option => String_ (encodeOption option)) options) acc =
  Ok (acc ++ options).
Proof.
  revert acc. induction options as [|o options IH]; intros acc.
  - intros _. cbn. now rewrite app_nil_r.
  - cbn [forallb map]. intros [Ho Hrest]%andb_prop.
    rewrite optionsFromJson_loop_string, (decode_encode o Ho).
    cbn [mbind outcome_bind]. rewrite (IH _ Hrest).
    now rewrite <- app_assoc.
Qed.

(** ** Where the delimiter cannot be found again

    These lemmas show that the condition [splittable] is not only sufficient
    for a pair to come back from its encoding. *)

Lemma take_S_cons n c s : Str.take (S n) (String c s) = String c (Str.take n s).
Proof. reflexivity. Qed.

Lemma take_app_ge a c b n :
  String.length a <= n ->
  Str.take (S n) (a +:+ String c b) = a +:+ String c (Str.take (n - String.length a) b).
Proof.
  revert n. induction a as [|d a IH]; intros n Hn.
  - rewrite !append_nil. cbn [Str.take String.length]. now rewrite Nat.sub_0_r.
  - cbn [String.length] in Hn. destruct n as [|n]; [lia|].
    rewrite !append_cons, take_S_cons, (IH n) by lia. reflexivity.
Qed.

Lemma append_cons_inj a c x d y : a +:+ String c x = a +:+ String d y -> c = d.
Proof.
  induction a as [|e a IH]; rewrite ?append_nil, ?append_cons; intros [=]; auto.
Qed.

(** Without a delimitable key the search cannot stop inside the escaped key
    or on its last character. *)
Lemma regex_search_past_key k w position :
  delimitable k = false ->
  Str.regex_search rx (escape k +:+ w) = Some position ->
  String.length (escape k) <= position.
Proof.
  revert position. induction k as [|c k IH]; intros position Hk.
  - intros _. cbn. lia.
  - rewrite delimitable_cons in Hk.
    destruct k as [|d k'].
    + apply negb_false_iff, Ascii.eqb_eq in Hk. subst c.
      change (escape (String Str.backslash "")) with (String Str.backslash "").
      rewrite append_cons, append_nil, regex_search_cons.
      replace (negb (Ascii.eqb Str.backslash Str.backslash)) with false by reflexivity.
      cbn [andb]. destruct (Str.regex_search rx w) as [q|]; [|discriminate].
      intros [= <-]. cbn. lia.
    + rewrite escape_cons.
      pose proof (escape_length_pos (String d k') ltac:(discriminate)) as Hlen.
      set (ek := escape (String d k')) in *.
      assert (Hhd : starts_with_equals (ek +:+ w) = false).
      { rewrite starts_with_equals_app; [apply escape_head|].
        intros He. rewrite He in Hlen. cbn in Hlen. lia. }
      destruct (Ascii.eqb c Str.equals).
      * rewrite !append_cons, regex_search_cons.
        replace (negb (Ascii.eqb Str.backslash Str.backslash)) with false by reflexivity.
        cbn [andb]. rewrite regex_search_cons, Hhd, andb_false_r.
        destruct (Str.regex_search rx (ek +:+ w)) as [q|] eqn:Hq; [|discriminate].
        intros [= <-]. specialize (IH q Hk eq_refl). cbn [String.length]. lia.
      * rewrite append_cons, regex_search_cons, Hhd, andb_false_r.
        destruct (Str.regex_search rx (ek +:+ w)) as [q|] eqn:Hq; [|discriminate].
        intros [= <-]. specialize (IH q Hk eq_refl). cbn [String.length]. lia.
Qed.

Lemma unescape_escape_app_escaped a t :
  unescape (escape a +:+ String Str.backslash (String Str.equals t)) =
  a +:+ String Str.equals (unescape t).
Proof.
  induction a as [|c a IH].
  - change (escape "") with "". rewrite !append_nil. now rewrite unescape_cons.
  - rewrite escape_cons.
    destruct (Ascii.eqb_spec c Str.equals) as [->|Hc].
    + rewrite !append_cons.
      transitivity (String Str.equals
        (unescape (escape a +:+ String Str.backslash (String Str.equals t)))).
      * now rewrite unescape_cons.
      * now rewrite IH.
    + rewrite !append_cons, unescape_cons.
      assert (Hhd : starts_with_equals
                (escape a +:+ String Str.backslash (String Str.equals t)) = false).
      { destruct a as [|d a']; [reflexivity|].
        rewrite starts_with_equals_app; [apply escape_head|].
        intros He. apply (proj1 (escape_empty _)) in He. discriminate He. }
      now rewrite Hhd, andb_false_r, IH.
Qed.

(** A key that is not delimitable is empty or ends with a backslash. *)
Lemma not_delimitable k :
  delimitable k = false -> k = "" \/ exists k0, k = k0 +:+ String Str.backslash "".
Proof.
  induction k as [|c k IH]; [now left|]. rewrite delimitable_cons. right.
  destruct k as [|d k'].
  - apply negb_false_iff, Ascii.eqb_eq in H as ->. now exists "".
  - destruct (IH H) as [?|[k0 Hk0]]; [discriminate|].
    exists (String c k0). now rewrite Hk0.
Qed.

Lemma escape_app a b : escape (a +:+ b) = escape a +:+ escape b.
Proof.
  induction a as [|c a IH]; [reflexivity|].
  rewrite append_cons, !escape_cons, IH.
  now destruct (Ascii.eqb c Str.equals).
Qed.

Lemma append_assoc (a b c : string) : (a +:+ b) +:+ c = a +:+ (b +:+ c).
Proof.
  induction a as [|x a IH]; [reflexivity|]. rewrite !append_cons. now rewrite IH.
Qed.

(** A pair that is not splittable does not come back. *)
Lemma decode_encode_only_splittable option :
  splittable option = false -> decodeOption (encodeOption option) <> Ok option.
Proof.
  destruct option as [k v]. unfold splittable, encodeOption. cbn [fst snd].
  fold (escape k) (escape v).
  intros [Hv Hk]%orb_false_elim.
  destruct (String.eqb_spec v "") as [|Hvne]; [discriminate|].
  destruct (String.eqb_spec (escape v) "") as [He|_];
    [apply (proj1 (escape_empty _)) in He; contradiction|].
  cbn [negb]. change ("=" +:+ escape v) with (String Str.equals (escape v)).
  unfold decodeOption.
  destruct (Str.regex_search rx _) as [position|] eqn:Hsearch.
  - pose proof (regex_search_bound _ _ Hsearch) as Hbound.
    pose proof (regex_search_past_key _ _ _ Hk Hsearch) as Hpast.
    unfold Str.substr.
    destruct (Nat.ltb_spec (String.length (escape k +:+ String Str.equals (escape v))) 0)
      as [?|_]; [lia|].
    destruct (Nat.ltb_spec (String.length (escape k +:+ String Str.equals (escape v)))
                (position + 2)) as [?|_]; [lia|].
    cbn [mbind outcome_bind mret outcome_ret].
    replace (position + 1) with (S position) by lia.
    rewrite take_0_drop, (take_app_ge _ _ _ _ Hpast).
    fold (unescape (escape k +:+
            String Str.equals (Str.take (position - String.length (escape k)) (escape v)))).
    intros [= Hkey _]. revert Hkey.
    destruct (not_delimitable k Hk) as [->|[k0 ->]].
    + change (escape "") with "". rewrite append_nil, unescape_cons.
      cbn. discriminate.
    + rewrite escape_app. change (escape (String Str.backslash "")) with (String Str.backslash "").
      rewrite append_assoc, append_cons, append_nil, unescape_escape_app_escaped.
      intros Hkey%append_cons_inj. discriminate.
  - intros [= _ Hvalue]. congruence.
Qed.

Lemma string_entries_encoded options :
  string_entries (map (fun option => String_ (encodeOption option)) options) =
  map encodeOption options.
Proof.
  unfold string_entries.
  induction options as [|o options IH]; [reflexivity | cbn; now rewrite IH].
Qed.

(** A list comes back from its encoding only if all its pairs are splittable. *)
Lemma roundtrip_only_splittable options :
  optionsFromJson (toJsonArray options) = Ok options ->
  forallb splittable options = true.
Proof.
  unfold optionsFromJson. rewrite toJsonArray_spec. intros Hrun.
  destruct (optionsFromJson_loop_spec
              (map (fun option => String_ (encodeOption option)) options) [])
    as (decoded & Hdecoded & HF).
  rewrite Hrun in Hdecoded. injection Hdecoded as <-.
  rewrite string_entries_encoded in HF. clear Hrun.
  induction options as [|o options IH]; [reflexivity|].
  cbn [map] in HF. apply Forall2_cons in HF as [Ho HF].
  cbn [forallb]. rewrite (IH HF), andb_true_r.
  destruct (splittable o) eqn:Hsplit; [reflexivity|].
  now apply decode_encode_only_splittable in Hsplit.
Qed.

(** ** Option lists: the round trip and its limits *)

(** C7.  Encoding the single pair ("foo", "bar=baz") gives the one array
    element "foo=bar\=baz", the [=] of the value escaped with a backslash;
    decoding an array holding that one string gives back the single pair
    ("foo", "bar=baz"). *)
Theorem foo_bar_baz_scenario :
  toJsonArray [("foo", "bar=baz")] = [String_ "foo=bar\=baz"] /\
  optionsFromJson [String_ "foo=bar\=baz"] = Ok [("foo", "bar=baz")].
Proof. split; reflexivity. Qed.

(** C1, as amended.  For every ordered list of pairs in which each pair has
    an empty value, or a key that is not empty and does not end with a
    backslash, whether or not keys and values contain [=], decoding the
    encoded list returns the original list. *)
Theorem options_roundtrip (options : list Pair) :
  forallb splittable options = true ->
  optionsFromJson (toJsonArray options) = Ok options.
Proof.
  intros Hok. unfold optionsFromJson.
  rewrite toJsonArray_spec. now apply optionsFromJson_loop_encoded.
Qed.

Lemma options_roundtrip_witness :
  optionsFromJson
    (toJsonArray [("foo", "bar=baz"); ("a=", "=b=="); ("=a", "b"); ("k=k", "")]) =
  Ok [("foo", "bar=baz"); ("a=", "=b=="); ("=a", "b"); ("k=k", "")].
Proof. apply options_roundtrip. reflexivity. Defined.

(** C1 as stated fails.  A key that ends with a backslash hides the
    delimiter, and so does an empty key: in both lists below the value
    contains [=], and decoding the encoded list returns another list. *)
Lemma options_roundtrip_counterexample :
  (contains_equals "b=c" = true /\
   optionsFromJson (toJsonArray [("a\", "b=c")]) = Ok [("a=b=c", "")] /\
   optionsFromJson (toJsonArray [("a\", "b=c")]) <> Ok [("a\", "b=c")]) /\
  (optionsFromJson (toJsonArray [("", "b=c")]) = Ok [("=b=c", "")] /\
   optionsFromJson (toJsonArray [("", "b=c")]) <> Ok [("", "b=c")]).
Proof. repeat split; try reflexivity; discriminate. Qed.

(** C10.  A pair with an empty key and a non-empty value [v] without [=] is
    encoded as "=" followed by [v]; that string decodes to the single pair
    ("=" followed by [v], ""), the [=] at position 0 not being taken as the
    delimiter; so the pair does not come back from the round trip. *)
Theorem empty_key_not_split (v : string) :
  v <> "" ->
  contains_equals v = false ->
  toJsonArray [("", v)] = [String_ ("=" +:+ v)] /\
  optionsFromJson [String_ ("=" +:+ v)] = Ok [("=" +:+ v, "")] /\
  optionsFromJson (toJsonArray [("", v)]) <> Ok [("", v)].
Proof.
  intros Hv Hno.
  assert (Henc : toJsonArray [("", v)] = [String_ ("=" +:+ v)]).
  { rewrite toJsonArray_spec. cbn [map]. unfold encodeOption. cbn [fst snd].
    fold (escape v). rewrite (escape_no_equals v Hno).
    destruct (String.eqb_spec v "") as [->|_]; [now destruct Hv | reflexivity]. }
  assert (Hdec : optionsFromJson [String_ ("=" +:+ v)] = Ok [("=" +:+ v, "")]).
  { unfold optionsFromJson. rewrite optionsFromJson_loop_string.
    change ("=" +:+ v) with (String Str.equals v).
    assert (Hsearch : Str.regex_search rx (String Str.equals v) = None).
    { rewrite regex_search_cons, (regex_search_no_equals v Hno).
      destruct v as [|d v]; [now destruct Hv|].
      cbn [contains_equals] in Hno. apply orb_false_elim in Hno as [Hd _].
      unfold starts_with_equals. cbn [Str.match_here Str.atom_matches].
      now rewrite Hd, andb_false_r. }
    unfold decodeOption. rewrite Hsearch. fold (unescape (String Str.equals v)).
    rewrite unescape_cons, (unescape_no_equals v Hno). reflexivity. }
  split; [exact Henc | split; [exact Hdec |]].
  rewrite Henc, Hdec. intros [=].
Qed.

Lemma empty_key_not_split_witness :
  toJsonArray [("", "verbose")] = [String_ "=verbose"] /\
  optionsFromJson [String_ "=verbose"] = Ok [("=verbose", "")] /\
  optionsFromJson (toJsonArray [("", "verbose")]) <> Ok [("", "verbose")].
Proof. apply (empty_key_not_split "verbose"); [discriminate | reflexivity]. Defined.

(** C9.  Neither overload of [optionsFromJson] fails: each returns a list,
    for every input.  Members and elements that are not strings are left
    out; the object overload returns the (name, string) members in iteration
    order, and the array overload returns one decoded pair for each string
    element, in array order. *)
Theorem optionsFromJson_never_fails (object : Object) (array : Array) :
  optionsFromJsonObject object = Ok (string_members object) /\
  exists options,
    optionsFromJson array = Ok options /\
    Forall2 (fun s option => decodeOption s = Ok option) (string_entries array) options.
Proof.
  split.
  - apply optionsFromJsonObject_loop_spec.
  - destruct (optionsFromJson_loop_spec array []) as (decoded & Hrun & HF).
    exists decoded. split; [exact Hrun | exact HF].
Qed.

(** ** Bulk extraction *)

Lemma leading_strings_all strs : leading_strings (String_ <$> strs) = strs.
Proof. induction strs as [|s strs IH]; [reflexivity | cbn; now rewrite IH]. Qed.

Lemma leading_ints_all ints : leading_ints (Integer <$> ints) = ints.
Proof. induction ints as [|n ints IH]; [reflexivity | cbn; now rewrite IH]. Qed.

Lemma all_strings strs : forallb (isType StringType) (String_ <$> strs) = true.
Proof. induction strs as [|s strs IH]; [reflexivity | exact IH]. Qed.

Lemma all_ints ints : forallb (isType IntegerType) (Integer <$> ints) = true.
Proof. induction ints as [|n ints IH]; [reflexivity | exact IH]. Qed.

Lemma fillVectorString_spec array pVector :
  fillVectorString array pVector =
  Ok (forallb (isType StringType) array, pVector ++ leading_strings array).
Proof.
  revert pVector. induction array as [|it rest IH]; intros pVector.
  - cbn. now rewrite app_nil_r.
  - destruct it; cbn; rewrite ?app_nil_r; try reflexivity.
    rewrite IH. now rewrite <- app_assoc.
Qed.

Lemma fillVectorInt_spec array pVector :
  fillVectorInt array pVector =
  Ok (forallb (isType IntegerType) array, pVector ++ (to_int <$> leading_ints array)).
Proof.
  revert pVector. induction array as [|it rest IH]; intros pVector.
  - cbn. now rewrite app_nil_r.
  - destruct it; cbn; rewrite ?app_nil_r; try reflexivity.
    rewrite IH. now rewrite <- app_assoc.
Qed.

Lemma to_int_in_range n : is_int n -> to_int n = n.
Proof.
  unfold is_int, INT_MIN, INT_MAX, to_int. intros Hn.
  rewrite Z.mod_small; lia.
Qed.

Lemma to_int_is_int n : is_int (to_int n).
Proof.
  unfold is_int, INT_MIN, INT_MAX, to_int.
  pose proof (Z.mod_pos_bound (n + 2 ^ 31) (2 ^ 32) ltac:(lia)). lia.
Qed.

Lemma to_int_all_in_range ints : Forall is_int ints -> to_int <$> ints = ints.
Proof.
  induction 1 as [|n ints Hn _ IH]; [reflexivity|].
  cbn. now rewrite IH, (to_int_in_range n Hn).
Qed.

Lemma fillSetString_spec array (pSet : gset string) :
  fillSetString array pSet =
  Ok (forallb (isType StringType) array, pSet ∪ list_to_set (leading_strings array)).
Proof.
  revert pSet. induction array as [|it rest IH]; intros pSet.
  - cbn. now rewrite union_empty_r_L.
  - destruct it; cbn; rewrite ?union_empty_r_L; try reflexivity.
    rewrite IH. now rewrite <- (assoc_L (∪)).
Qed.

(** C4, as amended.  [fillVectorString], [fillVectorInt] and
    [fillSetString] return the boolean "every element of the array has the
    expected type"; the output container then holds what it held before
    followed by (for the set: together with) the values of the elements
    before the first mismatch.  So an array of strings (of integers) gives
    [true] and all the values in array order, and an array with a mismatch
    gives [false] with the values before the mismatch already stored: the
    output is not left untouched on failure.  [fillVectorInt] stores each
    integer as the [int] it converts to: always a value in the range of
    [int], and the integer itself when that is in the range. *)
Theorem fill_helpers_spec
  (array : Array) (strs : list string) (ints : list Z)
  (pVector : list string) (pInts : list Z) (pSet : gset string) :
  (fillVectorString array pVector =
     Ok (forallb (isType StringType) array, pVector ++ leading_strings array) /\
   fillVectorString (String_ <$> strs) pVector = Ok (true, pVector ++ strs) /\
   fillVectorString (String_ "a" :: Null :: array) pVector = Ok (false, pVector ++ ["a"])) /\
  (fillVectorInt array pInts =
     Ok (forallb (isType IntegerType) array, pInts ++ (to_int <$> leading_ints array)) /\
   fillVectorInt (Integer <$> ints) pInts = Ok (true, pInts ++ (to_int <$> ints)) /\
   Forall is_int (to_int <$> ints) /\
   (Forall is_int ints ->
    fillVectorInt (Integer <$> ints) pInts = Ok (true, pInts ++ ints)) /\
   fillVectorInt (Integer 1 :: Null :: array) pInts = Ok (false, pInts ++ [1%Z])) /\
  (fillSetString array pSet =
     Ok (forallb (isType StringType) array, pSet ∪ list_to_set (leading_strings array)) /\
   fillSetString (String_ <$> strs) pSet = Ok (true, pSet ∪ list_to_set strs) /\
   fillSetString (String_ "a" :: Null :: array) pSet = Ok (false, pSet ∪ {[ "a" ]})).
Proof.
  split; [|split].
  - split; [|split].
    + apply fillVectorString_spec.
    + now rewrite fillVectorString_spec, all_strings, leading_strings_all.
    + now rewrite fillVectorString_spec.
  - split; [|split; [|split; [|split]]].
    + apply fillVectorInt_spec.
    + now rewrite fillVectorInt_spec, all_ints, leading_ints_all.
    + induction ints as [|n ints IH]; constructor; [apply to_int_is_int | exact IH].
    + intros Hints.
      now rewrite fillVectorInt_spec, all_ints, leading_ints_all, to_int_all_in_range.
    + now rewrite fillVectorInt_spec.
  - split; [|split].
    + apply fillSetString_spec.
    + now rewrite fillSetString_spec, all_strings, leading_strings_all.
    + rewrite fillSetString_spec. cbn. now rewrite union_empty_r_L.
Qed.

Lemma fill_helpers_spec_witness :
  fillVectorString [String_ "x"; String_ "y"] ["w"] = Ok (true, ["w"; "x"; "y"]) /\
  fillVectorInt [Integer 7; Integer (-2147483648); Integer 2147483647] [0%Z] =
    Ok (true, [0; 7; -2147483648; 2147483647]%Z) /\
  fillVectorInt [Integer 7; String_ "x"; Integer 8] [] = Ok (false, [7%Z]).
Proof.
  pose proof (fill_helpers_spec [Integer 7; String_ "x"; Integer 8] ["x"; "y"]
                [7; -2147483648; 2147483647]%Z ["w"] [0%Z] ∅)
    as ((_ & Hstrings & _) & (_ & _ & _ & Hints & _) & _).
  pose proof (fill_helpers_spec [Integer 7; String_ "x"; Integer 8] [] [] [] [] ∅)
    as (_ & (Hpartial & _) & _).
  split; [exact Hstrings|]. split; [|exact Hpartial].
  apply Hints. repeat constructor; unfold is_int, INT_MIN, INT_MAX; lia.
Defined.

(** C4 as stated fails for [fillVectorInt].  Every element of the arrays
    below is an integer and [true] is returned, but the vector does not hold
    the elements' values: 2^32 + 1 is stored as 1 and 2^31 as -2^31. *)
Lemma fill_helpers_spec_counterexample :
  forallb (isType IntegerType) [Integer 4294967297; Integer 2147483648] = true /\
  fillVectorInt [Integer 4294967297; Integer 2147483648] [] =
    Ok (true, [1; -2147483648]%Z) /\
  fillVectorInt [Integer 4294967297; Integer 2147483648] [] <>
    Ok (true, [4294967297; 2147483648]%Z).
Proof. repeat split; try reflexivity; discriminate. Qed.

(** C2 fails on the code.  [fillMap] asks each member for its array without
    testing the member's type first, so on an object with a member that is
    not an array the getter's exception leaves [fillMap]: no boolean is
    returned.  A mismatch one level down, inside a member's array, is
    reported by [false]. *)
Theorem fillMap_non_array_member_throws :
  fillMap [("files", String_ "a.R")] ∅ =
    Throw (runtime_error "value type is not array_type") /\
  fillMap [("files", Array_ [Integer 1])] ∅ = Ok (false, ∅).
Proof. split; reflexivity. Qed.

(** The same for every object: with only arrays of strings before it, the
    first member that is not an array makes [fillMap] throw, whatever
    follows and whatever the map holds. *)
Lemma fillMap_throws_at_first_non_array
  (before after : Object) (member : Member) (pMap : gmap string (list string)) :
  Forall (fun m => exists strs, snd m = Array_ (String_ <$> strs)) before ->
  type (snd member) <> ArrayType ->
  returns (fillMap (before ++ member :: after) pMap) = false.
Proof.
  intros Hbefore Hmember. revert pMap.
  induction Hbefore as [|m before (strs & Hm) _ IH]; intros pMap.
  - cbn [app fillMap]. destruct member as [name value]. cbn [snd] in *.
    destruct value; try reflexivity. now destruct Hmember.
  - cbn [app fillMap]. rewrite Hm. cbn [get_array mbind outcome_bind].
    rewrite fillVectorString_spec, all_strings. cbn [fst snd negb mbind outcome_bind].
    apply IH.
Qed.

(** ** The page-not-found handler *)

Section HandlerFacts.

Variable options : Options.
Variable jsLiteralEscape : string -> string.
Variable childPath : string -> string -> string.
Variable renderTemplate : string -> gmap string string -> Error * string.

Local Abbreviation handler :=
  (pageNotFoundHandler options jsLiteralEscape childPath renderTemplate).

Lemma pageNotFoundHandler_status request pResponse log :
  http.statusCode (handler request pResponse log).1 = 404%Z.
Proof.
  unfold pageNotFoundHandler.
  destruct (renderTemplate _ _) as [err os].
  now destruct (is_error err).
Qed.

(** The body is the rendered page when rendering succeeds; otherwise the
    response keeps its body and the error is logged. *)
Lemma pageNotFoundHandler_body request pResponse log :
  let '(err, os) :=
    renderTemplate (childPath (wwwLocalPath options) "404.htm")
      (<[ "request_uri" := jsLiteralEscape (http.uri request) ]> ∅) in
  handler request pResponse log =
  if is_error err
  then (http.setStatusCode 404 pResponse, log ++ [LOG_ERROR err])
  else (http.setStatusCode 404
          (http.setBodyUnencoded os (http.setContentType "text/html" pResponse)),
        log).
Proof.
  unfold pageNotFoundHandler.
  destruct (renderTemplate _ _) as [err os].
  now destruct (is_error err).
Qed.

End HandlerFacts.

(** C8.  The table built by [httpServerAddHandlers] registers
    [pageNotFoundHandler] under "/templates", no other registration has a
    prefix that starts with "/templates" (the unsupported-browser path being
    elsewhere), and the handler sets status 404 for every request and every
    response it is given, whether the 404 page renders or not. *)
Theorem templates_always_404
  (options : Options) (jsLiteralEscape : string -> string)
  (childPath complete : string -> string -> string)
  (renderTemplate : string -> gmap string string -> Error * string)
  (kBrowserUnsupported : string)
  (handleLogRequest handleMetaRequest : http.UriHandlerFunction)
  (handleSecureTemplateRequest : string -> http.UriHandlerFunction)
  (handleBrowserUnsupportedRequest blockingFileHandler : http.UriHandlerFunction)
  (secureJsonRpcHandler secureHttpHandler :
     http.UriHandlerFunction -> http.UriHandlerFunction) :
  String.prefix "/templates" kBrowserUnsupported = false ->
  let handler := pageNotFoundHandler options jsLiteralEscape childPath renderTemplate in
  let table :=
    httpServerAddHandlers options jsLiteralEscape childPath complete renderTemplate
      kBrowserUnsupported handleLogRequest handleMetaRequest
      handleSecureTemplateRequest handleBrowserUnsupportedRequest
      blockingFileHandler secureJsonRpcHandler secureHttpHandler in
  In (addBlocking "/templates" handler) table /\
  (forall r prefix,
     In r table -> registered_prefix r = Some prefix ->
     String.prefix "/templates" prefix = true ->
     r = addBlocking "/templates" handler) /\
  (forall request pResponse log,
     http.statusCode (handler request pResponse log).1 = http.status.NotFound /\
     http.status.NotFound = 404%Z).
Proof.
  intros Hbrowser handler table. split; [|split].
  - unfold table, httpServerAddHandlers. rewrite !in_app_iff. right. right.
    cbn. tauto.
  - intros r prefix Hin Hprefix Hstarts.
    unfold table, httpServerAddHandlers in Hin. rewrite !in_app_iff in Hin.
    destruct Hin as [Hin | [Hin | Hin]].
    + cbn in Hin.
      repeat (destruct Hin as [<- | Hin];
              [cbn in Hprefix; injection Hprefix as <-; vm_compute in Hstarts;
               discriminate Hstarts|]).
      destruct Hin.
    + destruct (wwwProxyLocalhost options); cbn in Hin; [|destruct Hin].
      repeat (destruct Hin as [<- | Hin];
              [cbn in Hprefix; injection Hprefix as <-; vm_compute in Hstarts;
               discriminate Hstarts|]).
      destruct Hin.
    + cbn in Hin.
      destruct Hin as [<- | [<- | [<- | [<- | [<- | [<- | []]]]]]];
        cbn in Hprefix; try discriminate Hprefix;
        injection Hprefix as <-; try reflexivity;
        try (vm_compute in Hstarts; discriminate Hstarts).
      congruence.
  - intros request pResponse log. split; [|reflexivity].
    apply pageNotFoundHandler_status.
Qed.

Lemma templates_always_404_witness :
  http.statusCode
    (pageNotFoundHandler {| wwwLocalPath := "/usr/lib/rstudio-server/www";
                            wwwProxyLocalhost := true |}
       id String.append (fun _ _ => (systemError 2 "renderTemplate", ""))
       {| http.uri := "/templates/encrypted-sign-in.htm" |}
       {| http.statusCode := 200; http.contentType := ""; http.body := "" |} []).1
  = 404%Z.
Proof.
  refine (proj1 (proj2 (proj2
    (templates_always_404
       {| wwwLocalPath := "/usr/lib/rstudio-server/www"; wwwProxyLocalhost := true |}
       id String.append String.append
       (fun _ _ => (systemError 2 "renderTemplate", ""))
       "/unsupported_browser.htm" no_handler no_handler (fun _ => no_handler)
       no_handler no_handler id id _)) _ _ _)).
  reflexivity.
Defined.

(** ** The signal loop *)

Lemma shutdown_calls_record c w :
  shutdown_calls (record_call c w) =
  shutdown_calls w + (if decide (c = overlay_shutdown) then 1 else 0).
Proof.
  unfold shutdown_calls. cbn [calls record_call].
  rewrite filter_app, length_app. f_equal.
  rewrite filter_cons, filter_nil. now destruct (decide (c = overlay_shutdown)).
Qed.

Lemma sys_kill_self_terminates sig w :
  sig ∉ blocked w ->
  disposition_of w sig = SIG_DFL ->
  default_action_terminates sig = true ->
  sys_kill_self sig w = set_status (Signaled sig) (record_call (kill_self sig) w).
Proof.
  intros Hblocked Hdisp Hdefault. unfold sys_kill_self.
  cbn [blocked record_call].
  rewrite bool_decide_eq_false_2 by exact Hblocked.
  change (disposition_of (record_call (kill_self sig) w) sig)
    with (disposition_of w sig).
  now rewrite Hdisp, Hdefault.
Qed.

Lemma sys_kill_self_status sig w :
  status (sys_kill_self sig w) = status w \/
  status (sys_kill_self sig w) = Signaled sig.
Proof.
  unfold sys_kill_self. destruct (bool_decide _); [now left|].
  destruct (disposition_of _ _); try (now left).
  destruct (default_action_terminates sig); [now right | now left].
Qed.

Lemma sys_kill_self_calls sig w :
  calls (sys_kill_self sig w) = calls w ++ [kill_self sig].
Proof.
  unfold sys_kill_self. destruct (bool_decide _); [reflexivity|].
  destruct (disposition_of _ _); try reflexivity.
  now destruct (default_action_terminates sig).
Qed.

Lemma is_shutdown_signal_cases sig :
  is_shutdown_signal sig = true -> sig = SIGINT \/ sig = SIGQUIT \/ sig = SIGTERM.
Proof.
  unfold is_shutdown_signal. rewrite !orb_true_iff, !Z.eqb_eq. tauto.
Qed.

Lemma is_shutdown_signal_not_SIGCHLD sig :
  is_shutdown_signal sig = true -> Z.eqb sig SIGCHLD = false.
Proof. now intros [-> | [-> | ->]]%is_shutdown_signal_cases. Qed.

Lemma least_elem_of sigs sig : least sigs = Some sig -> sig ∈ sigs.
Proof.
  destruct sigs as [|s rest]; [discriminate|]. cbn [least]. intros [= <-].
  induction rest as [|s' rest IH]; cbn [foldr].
  - left.
  - destruct (Z.min_spec s' (foldr Z.min s rest)) as [[_ ->] | [_ ->]].
    + right. left.
    + apply elem_of_cons in IH as [-> | IH]; [left | right; now right].
Qed.

(** The delivery of pending signals changes the status and the pending
    signals only, and ends the process only by a signal that was pending,
    not blocked, and terminates. *)
Lemma deliver_pending_fields w :
  calls (deliver_pending w) = calls w /\
  log (deliver_pending w) = log w /\
  blocked (deliver_pending w) = blocked w /\
  disposition (deliver_pending w) = disposition w /\
  pending (deliver_pending w) = pending w ∩ blocked w.
Proof. unfold deliver_pending. destruct (least _); repeat split. Qed.

Lemma deliver_pending_status w :
  status (deliver_pending w) = status w \/
  exists sig, sig ∈ pending w /\ (sig ∉ blocked w) /\ terminates w sig = true /\
              status (deliver_pending w) = Signaled sig.
Proof.
  unfold deliver_pending.
  destruct (least _) as [sig|] eqn:Hleast; [right | now left].
  exists sig. apply least_elem_of, list_elem_of_filter in Hleast as [Hends Hin].
  apply elem_of_elements, elem_of_difference in Hin as [Hp Hb]. auto.
Qed.

Lemma deliver_pending_none w :
  pending w ∖ blocked w = ∅ -> status (deliver_pending w) = status w.
Proof.
  intros Hnone. unfold deliver_pending. rewrite Hnone, elements_empty. reflexivity.
Qed.

Section SignalFacts.

Variable numberToString : Z -> string.
Variable ERROR_LOCATION : string.

Local Abbreviation pass := (waitForSignals_pass numberToString ERROR_LOCATION).
Local Abbreviation loop := (waitForSignals_loop numberToString ERROR_LOCATION).

Local Abbreviation shut := mask_cleared.
Local Abbreviation reset := (signal_reset ERROR_LOCATION).

(** The shutdown branch, step by step. *)
Lemma pass_shutdown_eq r sig w :
  sigwait_result r = 0%Z ->
  is_shutdown_signal sig = true ->
  pass r sig w =
    if is_running w && negb (is_running (shut r sig w))
    then inr (shut r sig w)
    else inr (sys_kill_self sig (reset r sig (shut r sig w))).
Proof.
  intros Hwait Hsig. unfold waitForSignals_pass, sys_sigwait. rewrite Hwait.
  cbn [Z.eqb negb]. rewrite (is_shutdown_signal_not_SIGCHLD sig Hsig).
  fold (is_shutdown_signal sig). rewrite Hsig. reflexivity.
Qed.

Lemma shut_fields r sig w :
  calls (shut r sig w) = calls w ++ [overlay_shutdown; clearSignalMask] /\
  log (shut r sig w) = log w /\
  disposition (shut r sig w) = disposition w /\
  (status (shut r sig w) = status w \/
   exists sig', sig' ∈ pending w /\ sig' <> sig /\ terminates w sig' = true /\
                status (shut r sig w) = Signaled sig').
Proof.
  unfold mask_cleared, sys_clearSignalMask. cbn [snd].
  destruct (is_error (clearSignalMask_result r)).
  - cbn. rewrite <- app_assoc. auto.
  - match goal with
    | |- context [deliver_pending ?w0] =>
        destruct (deliver_pending_fields w0) as (-> & -> & _ & -> & _);
        destruct (deliver_pending_status w0) as [-> | (sig' & Hp & _ & Hends & ->)]
    end; cbn; rewrite <- app_assoc; repeat split; auto.
    right. exists sig'. cbn in Hp. apply elem_of_difference in Hp as [Hp Hne].
    repeat split; auto. intros ->. apply Hne, elem_of_singleton. reflexivity.
Qed.

Lemma reset_fields r sig w1 :
  calls (reset r sig w1) = calls w1 ++ [sigaction sig SIG_DFL] /\
  status (reset r sig w1) = status w1 /\
  blocked (reset r sig w1) = blocked w1 /\
  pending (reset r sig w1) = pending w1.
Proof.
  unfold signal_reset, sys_sigaction. cbn [snd].
  destruct (is_error (clearSignalMask_result r)),
    (Z.eqb (sigaction_result r) 0); cbn; auto.
Qed.

(** The shutdown branch, whatever the system answers: the four calls are
    made, unless a signal that was pending ended the process when the mask
    was cleared. *)
Lemma pass_shutdown r sig w :
  sigwait_result r = 0%Z ->
  is_shutdown_signal sig = true ->
  exists w1,
    pass r sig w = inr w1 /\
    (calls w1 =
       calls w ++ [overlay_shutdown; clearSignalMask; sigaction sig SIG_DFL; kill_self sig] \/
     calls w1 = calls w ++ [overlay_shutdown; clearSignalMask]) /\
    (status w1 = status w \/ exists sig', status w1 = Signaled sig').
Proof.
  intros Hwait Hsig. rewrite (pass_shutdown_eq r sig w Hwait Hsig).
  destruct (shut_fields r sig w) as (Hcalls & _ & _ & Hstatus).
  destruct (is_running w && negb (is_running (shut r sig w))).
  - eexists. split; [reflexivity|]. split; [now right|].
    destruct Hstatus as [H | (sig' & _ & _ & _ & H)]; eauto.
  - eexists. split; [reflexivity|].
    destruct (reset_fields r sig (shut r sig w)) as (Hcalls2 & Hstatus2 & _).
    split.
    + left. rewrite sys_kill_self_calls, Hcalls2, Hcalls, <- !app_assoc. reflexivity.
    + match goal with
      | |- context [sys_kill_self sig ?w'] =>
          destruct (sys_kill_self_status sig w') as [-> | ->]; [|eauto]
      end.
      rewrite Hstatus2.
      destruct Hstatus as [H | (sig' & _ & _ & _ & H)]; eauto.
Qed.

(** The shutdown branch in a running process when the mask is cleared and
    the disposition reset. *)
Lemma pass_shutdown_terminates r sig w :
  status w = Running ->
  sigwait_result r = 0%Z ->
  is_shutdown_signal sig = true ->
  clearSignalMask_result r = Success ->
  sigaction_result r = 0%Z ->
  exists w1,
    pass r sig w = inr w1 /\
    (status w1 = Signaled sig \/
     exists sig', sig' ∈ pending w /\ sig' <> sig /\ terminates w sig' = true /\
                  status w1 = Signaled sig') /\
    (no_other_pending sig w ->
     calls w1 =
       calls w ++ [overlay_shutdown; clearSignalMask; sigaction sig SIG_DFL; kill_self sig] /\
     disposition_of w1 sig = SIG_DFL /\
     blocked w1 = ∅ /\
     log w1 = log w /\
     status w1 = Signaled sig).
Proof.
  intros Hrun Hwait Hsig Hclear Hact.
  rewrite (pass_shutdown_eq r sig w Hwait Hsig).
  destruct (shut_fields r sig w) as (Hcalls & Hlog & Hdisp & Hstatus).
  assert (Hblocked : blocked (shut r sig w) = ∅).
  { unfold mask_cleared, sys_clearSignalMask. rewrite Hclear. cbn [is_error snd].
    match goal with
    | |- context [deliver_pending ?w0] =>
        now destruct (deliver_pending_fields w0) as (_ & _ & -> & _)
    end. }
  assert (Hkill :
    status (shut r sig w) = Running ->
    sys_kill_self sig (reset r sig (shut r sig w)) =
    set_status (Signaled sig)
      (record_call (kill_self sig) (reset r sig (shut r sig w)))).
  { intros _. apply sys_kill_self_terminates.
    - destruct (reset_fields r sig (shut r sig w)) as (_ & _ & -> & _).
      rewrite Hblocked. apply not_elem_of_empty.
    - unfold signal_reset, sys_sigaction. rewrite Hclear, Hact.
      cbn [is_error Z.eqb negb snd]. unfold disposition_of.
      cbn [disposition set_disposition]. now rewrite lookup_insert_eq.
    - unfold default_action_terminates.
      now rewrite (is_shutdown_signal_not_SIGCHLD sig Hsig). }
  unfold is_running at 1. rewrite Hrun. cbn [andb].
  destruct Hstatus as [Hstatus | (sig' & Hp & Hne & Hends & Hstatus)].
  - rewrite Hrun in Hstatus. unfold is_running. rewrite Hstatus. cbn [negb].
    rewrite (Hkill Hstatus).
    eexists. split; [reflexivity|]. split; [now left|]. intros _.
    destruct (reset_fields r sig (shut r sig w)) as (Hcalls2 & _ & Hblocked2 & _).
    cbn [calls log blocked status set_status record_call].
    rewrite Hcalls2, Hcalls, Hblocked2, Hblocked, <- !app_assoc.
    repeat split.
    + unfold signal_reset, sys_sigaction. rewrite Hclear, Hact.
      cbn [is_error Z.eqb negb snd]. unfold disposition_of.
      cbn [disposition set_disposition set_status record_call].
      now rewrite lookup_insert_eq.
    + unfold signal_reset, sys_sigaction. rewrite Hclear, Hact.
      cbn [is_error Z.eqb negb snd log set_disposition record_call]. exact Hlog.
  - unfold is_running. rewrite Hstatus. cbn [negb].
    eexists. split; [reflexivity|]. split; [right; eauto|].
    intros Honly. now destruct Hne; apply Honly.
Qed.

(** With no other signal pending, the four calls are made whatever the
    system answers. *)
Lemma pass_shutdown_calls r sig w :
  status w = Running ->
  sigwait_result r = 0%Z ->
  is_shutdown_signal sig = true ->
  no_other_pending sig w ->
  exists w1,
    pass r sig w = inr w1 /\
    calls w1 =
      calls w ++ [overlay_shutdown; clearSignalMask; sigaction sig SIG_DFL; kill_self sig].
Proof.
  intros Hrun Hwait Hsig Honly.
  rewrite (pass_shutdown_eq r sig w Hwait Hsig).
  destruct (shut_fields r sig w) as (Hcalls & _ & _ & Hstatus).
  destruct Hstatus as [Hstatus | (sig' & Hp & Hne & Hends & _)];
    [|now destruct Hne; apply Honly].
  unfold is_running. rewrite Hstatus, Hrun. cbn [andb negb].
  eexists. split; [reflexivity|].
  destruct (reset_fields r sig (shut r sig w)) as (Hcalls2 & _).
  rewrite sys_kill_self_calls, Hcalls2, Hcalls, <- !app_assoc. reflexivity.
Qed.

(** A pass for any other signal. *)
Lemma pass_quiet r sig w :
  sigwait_result r = 0%Z ->
  is_shutdown_signal sig = false ->
  exists w1,
    pass r sig w = inr w1 /\
    calls w1 = calls w ++ collaborator_calls sig /\
    log w1 = log w ++ unexpected_warnings numberToString sig /\
    blocked w1 = blocked w /\
    disposition w1 = disposition w /\
    pending w1 = pending w ∖ {[ sig ]} /\
    status w1 = status w.
Proof.
  intros Hwait Hsig. unfold waitForSignals_pass, sys_sigwait. rewrite Hwait.
  cbn [Z.eqb negb]. fold (is_shutdown_signal sig). rewrite Hsig.
  unfold collaborator_calls, unexpected_warnings, reloadConfiguration.
  destruct (Z.eqb sig SIGCHLD); [|destruct (Z.eqb sig SIGHUP)];
    (eexists; split; [reflexivity|]); cbn; now rewrite ?app_nil_r.
Qed.

Lemma loop_quiet delivered w :
  status w = Running ->
  forallb quiet_delivery delivered = true ->
  exists w1,
    loop delivered w = (Waiting, w1) /\
    calls w1 = calls w ++ flat_map (fun d => collaborator_calls d.2) delivered /\
    log w1 = log w ++ flat_map (fun d => unexpected_warnings numberToString d.2) delivered /\
    blocked w1 = blocked w /\
    disposition w1 = disposition w /\
    status w1 = Running.
Proof.
  revert w. induction delivered as [|[r sig] rest IH]; intros w Hrun Hquiet.
  - exists w. cbn. rewrite Hrun, !app_nil_r. repeat split.
  - cbn [forallb] in Hquiet. apply andb_prop in Hquiet as [Hd Hrest].
    unfold quiet_delivery in Hd. cbn [fst snd] in Hd.
    apply andb_prop in Hd as [Hwait%Z.eqb_eq Hsig%negb_true_iff].
    destruct (pass_quiet r sig w Hwait Hsig)
      as (w1 & Hpass & Hcalls & Hlog & Hblocked & Hdisp & _ & Hstatus).
    destruct (IH w1 ltac:(congruence) Hrest)
      as (w2 & Hloop & Hcalls2 & Hlog2 & Hblocked2 & Hdisp2 & Hstatus2).
    exists w2. cbn [waitForSignals_loop flat_map fst snd].
    rewrite Hrun, Hpass, Hloop, Hcalls2, Hlog2, Hcalls, Hlog, !app_assoc.
    repeat split; congruence.
Qed.

End SignalFacts.

Lemma shutdown_calls_app w w1 l :
  calls w1 = calls w ++ l ->
  shutdown_calls w1 =
  shutdown_calls w + length (filter (fun c => c = overlay_shutdown) l).
Proof.
  intros Hcalls. unfold shutdown_calls. now rewrite Hcalls, filter_app, length_app.
Qed.

Lemma collaborator_calls_no_shutdown (delivered : list (os_results * Z)) :
  filter (fun c => c = overlay_shutdown)
    (flat_map (fun d => collaborator_calls d.2) delivered) = [].
Proof.
  induction delivered as [|[r sig] rest IH]; [reflexivity|].
  cbn [flat_map snd]. rewrite filter_app, IH, app_nil_r.
  unfold collaborator_calls.
  destruct (Z.eqb sig SIGCHLD); [reflexivity|].
  now destruct (Z.eqb sig SIGHUP).
Qed.

Lemma pass_returns_after_sigwait numberToString ERROR_LOCATION r sig w w1 :
  waitForSignals_pass numberToString ERROR_LOCATION r sig w = inr w1 ->
  sigwait_result r = 0%Z.
Proof.
  unfold waitForSignals_pass, sys_sigwait.
  destruct (Z.eqb_spec (sigwait_result r) 0) as [Hz|_]; [auto | discriminate].
Qed.

Lemma shutdown_calls_after w w1 l :
  calls w1 = calls w ++ overlay_shutdown :: clearSignalMask :: l ->
  (forall c, c ∈ l -> c <> overlay_shutdown) ->
  shutdown_calls w1 = S (shutdown_calls w).
Proof.
  intros Hcalls Hl. unfold shutdown_calls.
  rewrite Hcalls, filter_app, length_app, !filter_cons.
  repeat (case_decide; try congruence).
  replace (filter (fun c => c = overlay_shutdown) l) with (@nil call);
    [cbn; lia|].
  symmetry. clear Hcalls. induction l as [|c l IH]; [reflexivity|].
  rewrite filter_cons. case_decide as Hc.
  - destruct (Hl c); [left | exact Hc].
  - apply IH. intros c' Hin. apply Hl. now right.
Qed.

(** C3, as amended.  In a running process, a pass of the loop that receives
    SIGINT, SIGQUIT or SIGTERM calls [overlay::shutdown] once; when no other
    signal is pending whose delivery would end the process, it then clears
    the signal mask, asks for the default disposition of that signal and
    raises the same signal on its own process, in this order and whatever
    the system answers.  When the mask is cleared and the disposition reset,
    the process is terminated by a signal, the one received or one that was
    pending: its status is not exit status 0, and nothing delivered later is
    handled, so shutdown was called exactly once; when no other such signal
    is pending, the signal received then has its default disposition and the
    process is terminated by that same signal. *)
Theorem shutdown_signal_reraised
  (numberToString : Z -> string) (ERROR_LOCATION : string)
  (r : os_results) (sig : Z) (later : list (os_results * Z)) (w : process) :
  status w = Running ->
  sigwait_result r = 0%Z ->
  is_shutdown_signal sig = true ->
  exists w1,
    waitForSignals_pass numberToString ERROR_LOCATION r sig w = inr w1 /\
    shutdown_calls w1 = S (shutdown_calls w) /\
    (no_other_pending sig w ->
     calls w1 =
       calls w ++ [overlay_shutdown; clearSignalMask; sigaction sig SIG_DFL; kill_self sig]) /\
    (clearSignalMask_result r = Success ->
     sigaction_result r = 0%Z ->
     (status w1 = Signaled sig \/
      exists sig', sig' ∈ pending w /\ sig' <> sig /\ terminates w sig' = true /\
                   status w1 = Signaled sig') /\
     status w1 <> Exited 0 /\
     waitForSignals_loop numberToString ERROR_LOCATION ((r, sig) :: later) w = (Killed, w1) /\
     (no_other_pending sig w ->
      disposition_of w1 sig = SIG_DFL /\ status w1 = Signaled sig)).
Proof.
  intros Hrun Hwait Hsig.
  destruct (pass_shutdown numberToString ERROR_LOCATION r sig w Hwait Hsig)
    as (w1 & Hpass & Hcalls & _).
  exists w1. split; [exact Hpass|]. split; [|split].
  - destruct Hcalls as [Hcalls | Hcalls].
    + apply (shutdown_calls_after w w1 _ Hcalls).
      intros c [-> | [-> | []%elem_of_nil]%elem_of_cons]%elem_of_cons; discriminate.
    + apply (shutdown_calls_after w w1 _ Hcalls). now intros c []%elem_of_nil.
  - intros Honly.
    destruct (pass_shutdown_calls numberToString ERROR_LOCATION r sig w
                Hrun Hwait Hsig Honly) as (w2 & Hpass2 & Hcalls2).
    congruence.
  - intros Hclear Hact.
    destruct (pass_shutdown_terminates numberToString ERROR_LOCATION r sig w
                Hrun Hwait Hsig Hclear Hact) as (w2 & Hpass2 & Hstatus & Hplain).
    assert (w2 = w1) as -> by congruence.
    assert (Hended : status w1 <> Running /\ status w1 <> Exited 0).
    { destruct Hstatus as [-> | (sig' & _ & _ & _ & ->)]; split; discriminate. }
    split; [exact Hstatus|]. split; [apply Hended|]. split.
    + cbn [waitForSignals_loop]. rewrite Hrun, Hpass.
      destruct later as [|[r' sig'] later']; cbn [waitForSignals_loop];
        destruct (status w1); try reflexivity; now destruct Hended.
    + intros Honly. destruct (Hplain Honly) as (_ & Hdisp & _ & _ & Hs). auto.
Qed.

Lemma shutdown_signal_reraised_witness :
  exists w1,
    waitForSignals_loop (fun _ => "1") "ServerMain.cpp"
      [(os_success, SIGTERM); (os_success, SIGHUP)] waiting_process = (Killed, w1) /\
    calls w1 =
      [overlay_shutdown; clearSignalMask; sigaction SIGTERM SIG_DFL; kill_self SIGTERM] /\
    shutdown_calls w1 = 1 /\
    disposition_of w1 SIGTERM = SIG_DFL /\
    status w1 = Signaled SIGTERM.
Proof.
  assert (Honly : no_other_pending SIGTERM waiting_process).
  { intros sig' Hin _. cbn in Hin. now apply elem_of_empty in Hin. }
  destruct (shutdown_signal_reraised (fun _ => "1") "ServerMain.cpp" os_success SIGTERM
              [(os_success, SIGHUP)] waiting_process eq_refl eq_refl eq_refl)
    as (w1 & _ & Hcount & Hcalls & Hok).
  destruct (Hok eq_refl eq_refl) as (_ & _ & Hloop & Hplain).
  destruct (Hplain Honly) as (Hdisp & Hstatus).
  exists w1. repeat split; try assumption. exact (Hcalls Honly).
Defined.

(** C3 as stated fails when a system call of the pass fails.  When
    [clearSignalMask] fails, SIGTERM stays blocked and the signal raised
    again only becomes pending: after two deliveries of SIGTERM the process
    still runs and waits, and [overlay::shutdown] has been called twice.
    When the process ignores SIGTERM and [sigaction] fails, the mask is
    cleared but the signal raised again is ignored, and the process still
    runs. *)
Lemma shutdown_signal_reraised_counterexample :
  (exists w1,
     waitForSignals_loop (fun _ => "1") "ServerMain.cpp"
       [(os_mask_failure, SIGTERM); (os_mask_failure, SIGTERM)] waiting_process =
       (Waiting, w1) /\
     calls w1 =
       [overlay_shutdown; clearSignalMask; sigaction SIGTERM SIG_DFL; kill_self SIGTERM;
        overlay_shutdown; clearSignalMask; sigaction SIGTERM SIG_DFL; kill_self SIGTERM] /\
     shutdown_calls w1 = 2 /\
     disposition_of w1 SIGTERM = SIG_DFL /\
     bool_decide (SIGTERM ∈ blocked w1) = true /\
     bool_decide (SIGTERM ∈ pending w1) = true /\
     status w1 = Running) /\
  (exists w1,
     waitForSignals_loop (fun _ => "1") "ServerMain.cpp"
       [(os_sigaction_failure, SIGTERM)] ignoring_process = (Waiting, w1) /\
     calls w1 =
       [overlay_shutdown; clearSignalMask; sigaction SIGTERM SIG_DFL; kill_self SIGTERM] /\
     disposition_of w1 SIGTERM = SIG_IGN /\
     status w1 = Running).
Proof.
  split; eexists; (split; [vm_compute; reflexivity|]); repeat split; vm_compute; reflexivity.
Qed.

(** C6.  While the signals delivered are not SIGINT, SIGQUIT or SIGTERM the
    loop stays in its running state and waits again: SIGCHLD reaches
    [notifySIGCHLD], SIGHUP reaches [overlay::reloadConfiguration], any
    other signal is logged with a warning; no call to [overlay::shutdown]
    is made, the loop does not return and the process lives.  A pass that
    ends with the process no longer running received SIGINT, SIGQUIT or
    SIGTERM. *)
Theorem other_signals_keep_running
  (numberToString : Z -> string) (ERROR_LOCATION : string)
  (delivered : list (os_results * Z)) (w : process) :
  status w = Running ->
  forallb quiet_delivery delivered = true ->
  (exists w1,
     waitForSignals_loop numberToString ERROR_LOCATION delivered w = (Waiting, w1) /\
     status w1 = Running /\
     shutdown_calls w1 = shutdown_calls w /\
     calls w1 = calls w ++ flat_map (fun d => collaborator_calls d.2) delivered /\
     log w1 =
       log w ++ flat_map (fun d => unexpected_warnings numberToString d.2) delivered) /\
  (collaborator_calls SIGCHLD = [notifySIGCHLD] /\
   collaborator_calls SIGHUP = [overlay_reloadConfiguration] /\
   unexpected_warnings numberToString SIGCHLD = [] /\
   unexpected_warnings numberToString SIGHUP = [] /\
   forall sig, sig <> SIGCHLD -> sig <> SIGHUP ->
     collaborator_calls sig = [] /\
     unexpected_warnings numberToString sig =
       [LOG_WARNING_MESSAGE
          ("Unexpected signal returned from sigwait: " +:+ numberToString sig)]) /\
  (forall r sig w1,
     waitForSignals_pass numberToString ERROR_LOCATION r sig w = inr w1 ->
     status w1 <> Running ->
     is_shutdown_signal sig = true).
Proof.
  intros Hrun Hquiet. split; [|split].
  - destruct (loop_quiet numberToString ERROR_LOCATION delivered w Hrun Hquiet)
      as (w1 & Hloop & Hcalls & Hlog & _ & _ & Hstatus).
    exists w1. repeat split; try assumption.
    rewrite (shutdown_calls_app w w1 _ Hcalls), collaborator_calls_no_shutdown.
    cbn. lia.
  - repeat split; try reflexivity.
    + unfold collaborator_calls.
      destruct (Z.eqb_spec sig SIGCHLD); [contradiction|].
      now destruct (Z.eqb_spec sig SIGHUP).
    + unfold unexpected_warnings.
      destruct (Z.eqb_spec sig SIGCHLD); [contradiction|].
      now destruct (Z.eqb_spec sig SIGHUP).
  - intros r sig w1 Hpass Hstatus.
    destruct (is_shutdown_signal sig) eqn:Hsig; [reflexivity|].
    pose proof (pass_returns_after_sigwait _ _ _ _ _ _ Hpass) as Hwait.
    destruct (pass_quiet numberToString ERROR_LOCATION r sig w Hwait Hsig)
      as (w2 & Hpass2 & _ & _ & _ & _ & _ & Hstatus2).
    assert (w2 = w1) as -> by congruence. congruence.
Qed.

Lemma other_signals_keep_running_witness :
  exists w1,
    waitForSignals_loop (fun _ => "10") "ServerMain.cpp"
      [(os_success, SIGCHLD); (os_success, SIGHUP); (os_success, 10%Z)]
      waiting_process = (Waiting, w1) /\
    status w1 = Running /\
    shutdown_calls w1 = 0 /\
    calls w1 = [notifySIGCHLD; overlay_reloadConfiguration] /\
    log w1 = [LOG_WARNING_MESSAGE "Unexpected signal returned from sigwait: 10"].
Proof.
  destruct (other_signals_keep_running (fun _ => "10") "ServerMain.cpp"
              [(os_success, SIGCHLD); (os_success, SIGHUP); (os_success, 10%Z)]
              waiting_process eq_refl eq_refl)
    as ((w1 & Hloop & Hstatus & Hcount & Hcalls & Hlog) & _).
  exists w1. repeat split; assumption.
Defined.

(** * Further properties *)

(** ** Escaping and decoding *)

(** Replacing every [=] by [\=] and then every [\=] by [=] gives the string
    back, for every string, backslashes included. *)
Theorem replace_all_escape_roundtrip (s : string) :
  Str.replace_all_copy (Str.replace_all_copy s "=" "\=") "\=" "=" = s.
Proof.
  fold (escape s) (unescape (escape s)).
  induction s as [|c s IH]; [reflexivity|].
  rewrite escape_cons. destruct (Ascii.eqb_spec c Str.equals) as [->|_].
  - transitivity (String Str.equals (unescape (escape s))).
    + now rewrite unescape_cons.
    + now rewrite IH.
  - now rewrite unescape_cons, escape_head, andb_false_r, IH.
Qed.

Lemma regex_search_split s position :
  Str.regex_search rx s = Some position ->
  exists pre c rest,
    s = pre +:+ String c (String Str.equals rest) /\
    String.length pre = position /\
    c <> Str.backslash.
Proof.
  revert position. induction s as [|c s IH]; intros position; [discriminate|].
  rewrite regex_search_cons.
  destruct (negb (Ascii.eqb c Str.backslash) && starts_with_equals s) eqn:Hm.
  - intros [= <-]. apply andb_prop in Hm as [Hc Hs].
    destruct s as [|d s]; [discriminate|].
    unfold starts_with_equals in Hs. cbn [Str.match_here Str.atom_matches] in Hs.
    rewrite andb_true_r in Hs. apply Ascii.eqb_eq in Hs as ->.
    exists "", c, s. repeat split.
    now apply negb_true_iff, Ascii.eqb_neq in Hc.
  - destruct (Str.regex_search rx s) as [q|]; [|discriminate].
    intros [= <-]. destruct (IH q eq_refl) as (pre & c' & rest & -> & Hlen & Hc').
    exists (String c pre), c', rest. repeat split; [|exact Hc'].
    cbn [String.length]. now rewrite Hlen.
Qed.

Lemma delimitable_true_cons c t :
  delimitable t = true -> delimitable (String c t) = true.
Proof. rewrite delimitable_cons. destruct t; [discriminate | auto]. Qed.

(** Unescaping keeps a last character that is not a backslash from becoming
    one. *)
Lemma delimitable_unescape_snoc n pre c :
  String.length pre <= n ->
  c <> Str.backslash ->
  delimitable (unescape (pre +:+ String c "")) = true.
Proof.
  revert pre. induction n as [|n IH]; intros pre Hlen Hc.
  - destruct pre; [|cbn in Hlen; lia]. rewrite append_nil, unescape_cons.
    change (starts_with_equals "") with false. rewrite andb_false_r.
    change (unescape "") with "". cbn [delimitable last_char].
    now apply negb_true_iff, Ascii.eqb_neq.
  - destruct pre as [|x pre]; [apply (IH ""); [cbn; lia | exact Hc]|].
    cbn [String.length] in Hlen. rewrite append_cons, unescape_cons.
    destruct (Ascii.eqb x Str.backslash && starts_with_equals (pre +:+ String c ""))
      eqn:Hesc.
    + destruct pre as [|y pre'].
      * reflexivity.
      * rewrite append_cons. cbn [Str.drop].
        apply delimitable_true_cons, IH; [cbn in Hlen; lia | exact Hc].
    + apply delimitable_true_cons, IH; [lia | exact Hc].
Qed.

Lemma take_S_app pre c rest :
  Str.take (S (String.length pre)) (pre +:+ String c rest) = pre +:+ String c "".
Proof.
  induction pre as [|x pre IH]; [now destruct rest|].
  rewrite !append_cons. cbn [String.length]. now rewrite take_S_cons, IH.
Qed.

(** What [decodeOption] returns has an empty value or a delimitable key. *)
Lemma decodeOption_splittable s option :
  decodeOption s = Ok option -> splittable option = true.
Proof.
  unfold decodeOption.
  destruct (Str.regex_search rx s) as [position|] eqn:Hsearch.
  - pose proof (regex_search_bound _ _ Hsearch) as Hbound.
    destruct (regex_search_split _ _ Hsearch) as (pre & c & rest & -> & Hlen & Hc).
    unfold Str.substr.
    destruct (Nat.ltb_spec
                (String.length (pre +:+ String c (String Str.equals rest))) 0)
      as [?|_]; [lia|].
    destruct (Nat.ltb_spec
                (String.length (pre +:+ String c (String Str.equals rest)))
                (position + 2)) as [?|_]; [lia|].
    cbn [mbind outcome_bind mret outcome_ret].
    replace (position + 1) with (S (String.length pre)) by lia.
    rewrite take_0_drop, take_S_app. intros [= <-].
    unfold splittable. cbn [fst snd].
    fold (unescape (pre +:+ String c "")).
    rewrite (delimitable_unescape_snoc (String.length pre) pre c (le_n _) Hc).
    apply orb_true_r.
  - intros [= <-]. reflexivity.
Qed.

(** What [optionsFromJson] returns is a list that its own encoding gives
    back: decoding, encoding and decoding again changes nothing. *)
Theorem decoded_options_are_stable (optionsJson : Array) :
  exists options,
    optionsFromJson optionsJson = Ok options /\
    forallb splittable options = true /\
    optionsFromJson (toJsonArray options) = Ok options.
Proof.
  destruct (optionsFromJson_loop_spec optionsJson []) as (options & Hrun & HF).
  assert (Hsplit : forallb splittable options = true).
  { clear Hrun. induction HF as [|s o ss os Ho _ IH]; [reflexivity|].
    cbn [forallb]. now rewrite (decodeOption_splittable s o Ho), IH. }
  exists options. split; [exact Hrun|]. split; [exact Hsplit|].
  unfold optionsFromJson. rewrite toJsonArray_spec.
  now apply optionsFromJson_loop_encoded.
Qed.

(** Two lists of splittable pairs with the same encoding are the same list. *)
Theorem toJsonArray_injective (options1 options2 : list Pair) :
  forallb splittable options1 = true ->
  forallb splittable options2 = true ->
  toJsonArray options1 = toJsonArray options2 ->
  options1 = options2.
Proof.
  intros H1 H2 Heq.
  pose proof (optionsFromJson_loop_encoded options1 [] H1) as D1.
  pose proof (optionsFromJson_loop_encoded options2 [] H2) as D2.
  rewrite <- toJsonArray_spec in D1, D2. rewrite Heq in D1.
  rewrite D1 in D2. now injection D2.
Qed.

Lemma toJsonArray_injective_witness :
  [("a=", "b"); ("c", "")] = [("a=", "b"); ("c", "")].
Proof.
  apply (toJsonArray_injective [("a=", "b"); ("c", "")] [("a=", "b"); ("c", "")]);
    reflexivity.
Defined.

(** Encoding gives one string element for each pair, and decoding the
    encoded list gives one pair for each pair of the list, also when the
    pairs do not come back as they were. *)
Theorem options_count_preserved (options : list Pair) :
  length (toJsonArray options) = length options /\
  Forall (fun value => isType StringType value = true) (toJsonArray options) /\
  exists decoded,
    optionsFromJson (toJsonArray options) = Ok decoded /\
    length decoded = length options.
Proof.
  rewrite toJsonArray_spec. split; [apply length_map|]. split.
  - induction options as [|o options IH]; constructor; [reflexivity | exact IH].
  - destruct (optionsFromJson_loop_spec
                (map (fun option => String_ (encodeOption option)) options) [])
      as (decoded & Hrun & HF).
    exists decoded. split; [exact Hrun|].
    apply Forall2_length in HF. rewrite string_entries_encoded, length_map in HF.
    now symmetry.
Qed.

(** ** Options as a JSON object *)

Lemma toJsonObject_loop_lookup options (optionsJson : gmap string Value) key :
  toJsonObject_loop options optionsJson !! key =
  match last_value key options with
  | Some value => Some (String_ value)
  | None => optionsJson !! key
  end.
Proof.
  revert optionsJson. induction options as [|[k v] rest IH]; intros acc; [reflexivity|].
  cbn [toJsonObject_loop last_value fst snd]. rewrite IH.
  destruct (last_value key rest); [reflexivity|].
  destruct (String.eqb_spec k key) as [->|Hne].
  - now rewrite lookup_insert_eq.
  - now rewrite lookup_insert_ne.
Qed.

Lemma toJsonObject_lookup options key :
  toJsonObject options !! key = String_ <$> last_value key options.
Proof.
  unfold toJsonObject. rewrite toJsonObject_loop_lookup, lookup_empty.
  now destruct (last_value key options).
Qed.

(** The object built from a list of options has, for each key, the value of
    the last pair with that key, as a string; a key that is in no pair has
    no member. *)
Theorem toJsonObject_last_wins (options : list Pair) (key : string) :
  toJsonObject options !! key = String_ <$> last_value key options.
Proof.
  unfold toJsonObject. rewrite toJsonObject_loop_lookup, lookup_empty.
  now destruct (last_value key options).
Qed.

Lemma last_value_elem_of options key value :
  last_value key options = Some value -> (key, value) ∈ options.
Proof.
  induction options as [|[k v] rest IH]; [discriminate|].
  cbn [last_value fst snd]. destruct (last_value key rest) as [v'|].
  - intros [= ->]. right. now apply IH.
  - destruct (String.eqb_spec k key) as [->|_]; [|discriminate].
    intros [= ->]. left.
Qed.

Lemma last_value_None options key :
  key ∉ options.*1 -> last_value key options = None.
Proof.
  intros Hnot. destruct (last_value key options) as [v|] eqn:Hv; [|reflexivity].
  apply last_value_elem_of in Hv. destruct Hnot.
  change key with (key, v).1. now apply list_elem_of_fmap_2.
Qed.

Lemma last_value_NoDup options key value :
  NoDup options.*1 ->
  (key, value) ∈ options <-> last_value key options = Some value.
Proof.
  intros Hnodup. split; [|apply last_value_elem_of].
  induction options as [|[k v] rest IH]; [now intros ?%elem_of_nil|].
  apply NoDup_cons in Hnodup as [Hk Hrest]. cbn [last_value fst snd].
  intros [[= -> ->]|Hin]%elem_of_cons.
  - rewrite (last_value_None rest k Hk). now rewrite String.eqb_refl.
  - now rewrite (IH Hrest Hin).
Qed.

Lemma string_members_elem_of (object : Object) key value :
  (key, value) ∈ string_members object <-> (key, String_ value) ∈ object.
Proof.
  unfold string_members. rewrite list_elem_of_omap. split.
  - intros ([k v] & Hin & Hsome). cbn [fst snd] in Hsome.
    destruct v; try discriminate. now injection Hsome as -> ->.
  - intros Hin. now exists (key, String_ value).
Qed.

Lemma string_members_NoDup (object : Object) :
  NoDup object.*1 -> NoDup (string_members object).*1.
Proof.
  induction object as [|[k v] rest IH]; [constructor|].
  intros [Hk Hrest]%NoDup_cons. specialize (IH Hrest).
  destruct v; try exact IH.
  change (string_members ((k, String_ s) :: rest))
    with ((k, s) :: string_members rest).
  cbn [fmap list_fmap fst]. apply NoDup_cons. split; [|exact IH].
  intros ([k' v'] & Hk' & Hin)%list_elem_of_fmap. cbn [fst] in Hk'. subst k'.
  apply string_members_elem_of in Hin. apply Hk.
  apply list_elem_of_fmap. exists (k, String_ v'). split; [reflexivity | exact Hin].
Qed.

(** Through an object, the options come back with one pair for each key,
    the last value of the key winning; when no key occurs twice they all
    come back, in the order in which the object gives its members.  This
    holds for every order of the members. *)
Theorem options_through_object
  (members : gmap string Value -> Object) (options : list Pair) :
  (forall m, members m ≡ₚ map_to_list m) ->
  exists decoded,
    optionsFromJsonObject (members (toJsonObject options)) = Ok decoded /\
    NoDup decoded.*1 /\
    (forall key value,
       (key, value) ∈ decoded <-> last_value key options = Some value) /\
    (NoDup options.*1 -> decoded ≡ₚ options).
Proof.
  intros Hmembers. exists (string_members (members (toJsonObject options))).
  assert (Hin : forall key value,
             (key, value) ∈ string_members (members (toJsonObject options)) <->
             last_value key options = Some value).
  { intros key value.
    rewrite string_members_elem_of, Hmembers, elem_of_map_to_list,
      toJsonObject_lookup.
    destruct (last_value key options); cbn; split; congruence. }
  assert (Hnodup : NoDup (string_members (members (toJsonObject options))).*1).
  { apply string_members_NoDup. rewrite Hmembers. apply NoDup_fst_map_to_list. }
  split; [apply optionsFromJsonObject_loop_spec|].
  split; [exact Hnodup|]. split; [exact Hin|].
  intros Hkeys. apply NoDup_Permutation.
  - eapply NoDup_fmap_1, Hnodup.
  - eapply NoDup_fmap_1, Hkeys.
  - intros [key value]. now rewrite Hin, last_value_NoDup.
Qed.

Lemma options_through_object_witness :
  exists decoded,
    optionsFromJsonObject
      (map_to_list (toJsonObject [("b", "1"); ("a", "2"); ("b", "3")])) = Ok decoded /\
    NoDup decoded.*1 /\
    (forall key value,
       (key, value) ∈ decoded <->
       last_value key [("b", "1"); ("a", "2"); ("b", "3")] = Some value).
Proof.
  destruct (options_through_object map_to_list [("b", "1"); ("a", "2"); ("b", "3")]
              (fun m => reflexivity (map_to_list m)))
    as (decoded & Hrun & Hnodup & Hin & _).
  exists decoded. auto.
Defined.

(** ** Filling a map *)

Lemma list_to_map_snoc_union (l : list (string * list string)) key strings
  (m : gmap string (list string)) :
  list_to_map (l ++ [(key, strings)]) ∪ m = list_to_map l ∪ <[ key := strings ]> m.
Proof.
  induction l as [|[k v] l IH].
  - cbn. now rewrite insert_empty, <- insert_union_singleton_l, (left_id_L ∅ (∪)).
  - cbn [app]. rewrite !list_to_map_cons, <- !insert_union_l. now rewrite IH.
Qed.

Lemma fillMap_strings_member entry rest (pMap : gmap string (list string)) :
  fillMap (strings_member entry :: rest) pMap =
  fillMap rest (<[ entry.1 := entry.2 ]> pMap).
Proof.
  cbn [fillMap strings_member fst snd get_array mbind outcome_bind].
  now rewrite fillVectorString_spec, all_strings, leading_strings_all.
Qed.

(** On an object whose members are all arrays of strings [fillMap] returns
    [true]; each name of the object then maps to the strings of its last
    member of that name, and the other keys of the map keep their values. *)
Theorem fillMap_arrays_of_strings
  (entries : list (string * list string)) (pMap : gmap string (list string)) :
  fillMap (strings_member <$> entries) pMap =
  Ok (true, list_to_map (reverse entries) ∪ pMap).
Proof.
  revert pMap. induction entries as [|[key strings] entries IH]; intros pMap.
  - cbn. now rewrite (left_id_L ∅ (∪)).
  - rewrite fmap_cons, fillMap_strings_member, IH, reverse_cons.
    now rewrite list_to_map_snoc_union.
Qed.

(** When a member's array holds an element that is not a string, [fillMap]
    returns [false]: the members before it are in the map already, the
    failing member is not written, and the members after it are not
    looked at. *)
Theorem fillMap_partial_on_mismatch
  (entries : list (string * list string)) (name : string) (array : Array)
  (after : Object) (pMap : gmap string (list string)) :
  forallb (isType StringType) array = false ->
  fillMap ((strings_member <$> entries) ++ (name, Array_ array) :: after) pMap =
  Ok (false, list_to_map (reverse entries) ∪ pMap).
Proof.
  intros Hmismatch. revert pMap.
  induction entries as [|[key strings] entries IH]; intros pMap.
  - cbn [fmap list_fmap app fillMap fst snd get_array mbind outcome_bind].
    rewrite fillVectorString_spec, Hmismatch. cbn.
    now rewrite (left_id_L ∅ (∪)).
  - rewrite fmap_cons, <- app_comm_cons, fillMap_strings_member, IH, reverse_cons.
    now rewrite list_to_map_snoc_union.
Qed.

Lemma fillMap_partial_on_mismatch_witness :
  fillMap [("a", Array_ [String_ "x"]); ("b", Array_ [String_ "y"; Integer 1]);
           ("c", Null)] ∅ =
  Ok (false, list_to_map [("a", ["x"])] ∪ ∅).
Proof.
  apply (fillMap_partial_on_mismatch [("a", ["x"])] "b" [String_ "y"; Integer 1]
           [("c", Null)] ∅).
  reflexivity.
Defined.

(** ** Filling from a concatenation *)

(** Filling from [a ++ b] is filling from [a] and, when that succeeded,
    filling from [b] into what [a] left; a failure on [a] is the result. *)
Theorem fill_from_append
  (a b : Array) (pVector : list string) (pInts : list Z) (pSet : gset string) :
  fillVectorString (a ++ b) pVector =
    (fillVectorString a pVector ≫= fun r : bool * list string =>
     if r.1 then fillVectorString b r.2 else mret r) /\
  fillVectorInt (a ++ b) pInts =
    (fillVectorInt a pInts ≫= fun r : bool * list Z =>
     if r.1 then fillVectorInt b r.2 else mret r) /\
  fillSetString (a ++ b) pSet =
    (fillSetString a pSet ≫= fun r : bool * gset string =>
     if r.1 then fillSetString b r.2 else mret r).
Proof.
  split; [|split].
  - revert pVector. induction a as [|it a IH]; intros pVector; [reflexivity|].
    destruct it; try reflexivity. apply IH.
  - revert pInts. induction a as [|it a IH]; intros pInts; [reflexivity|].
    destruct it; try reflexivity. apply IH.
  - revert pSet. induction a as [|it a IH]; intros pSet; [reflexivity|].
    destruct it; try reflexivity. apply IH.
Qed.

(** ** The start of the server *)

(** *** Running [main] piece by piece *)

Lemma wp_ret {A} (x : A) Q trace : Q trace (inr x) -> wp (mret x) Q trace.
Proof. exact id. Qed.

Lemma wp_return {A} code (Q : list Main.step -> Z + A -> Prop) trace :
  Q trace (inl code) -> wp (Main.return_ code) Q trace.
Proof. exact id. Qed.

Lemma wp_bind {A B} (m : Main.M A) (f : A -> Main.M B) Q trace :
  wp m (fun trace' r =>
          match r with
          | inl code => Q trace' (inl code)
          | inr x => wp (f x) Q trace'
          end) trace ->
  wp (m ≫= f) Q trace.
Proof.
  unfold wp, mbind, Main.M_bind.
  destruct (m trace) as [trace' [code|x]]; exact id.
Qed.

Lemma wp_call a s (Q : list Main.step -> Z + unit -> Prop) trace :
  (Main.throws a s = true -> Q (trace ++ [s]) (inl EXIT_FAILURE)) ->
  (Main.throws a s = false -> Q (trace ++ [s]) (inr tt)) ->
  wp (Main.call a s) Q trace.
Proof.
  unfold wp, Main.call. destruct (Main.throws a s); auto.
Qed.

Lemma wp_true {A} (m1 m2 : Main.M A) Q trace :
  wp m1 Q trace -> wp (if true then m1 else m2) Q trace.
Proof. exact id. Qed.

Lemma wp_false {A} (m1 m2 : Main.M A) Q trace :
  wp m2 Q trace -> wp (if false then m1 else m2) Q trace.
Proof. exact id. Qed.

(** One step: a bind, a call, or a test, whose variable is replaced by its
    two values. *)
Ltac wp_test c :=
  lazymatch c with
  | true => apply wp_true
  | false => apply wp_false
  | negb ?b => wp_test b
  | is_error ?e => is_var e; destruct e; cbn [is_error negb]
  | String.eqb ?u _ => is_var u; destruct u; cbn [String.eqb negb]
  | ?b => is_var b; destruct b; cbn [negb]
  end.

Ltac wp_step :=
  lazymatch goal with
  | |- wp (_ ≫= _) _ _ => apply wp_bind
  | |- wp (Main.call _ _) _ _ =>
      apply wp_call; let H := fresh "Hthrows" in intros H; cbn [Main.throws] in H
  | |- wp (Main.check _ _ _) _ _ => unfold Main.check
  | |- wp (Main.return_exitFailure _ _) _ _ => unfold Main.return_exitFailure
  | |- wp (Main.httpServerInit _) _ _ =>
      unfold Main.httpServerInit; cbn [Main.httpServerInit_error]
  | |- wp (Main.when _ _) _ _ => unfold Main.when
  | |- wp (if ?c then _ else _) _ _ => wp_test c
  | |- wp (mret _) _ _ => apply wp_ret
  | |- wp (Main.return_ _) _ _ => apply wp_return
  end.

Ltac close_bool :=
  unfold Main.order_facts, Main.absence_facts, Main.exit_facts, Main.serving_facts;
  cbn [Main.serverUser];
  try match goal with
      | |- context [String.eqb ?u _] => is_var u; destruct u
      end;
  vm_compute;
  first
    [ reflexivity
    | match goal with
      | |- context [match ?v with _ => _ end] => is_var v; destruct v; close_bool
      end ].

Ltac main_leaf :=
  unfold Main.main_facts;
  repeat split;
  lazymatch goal with
  | |- _ -> _ =>
      first
        [ intros H; discriminate H
        | intros _; cbn [forallb app negb andb Main.throws];
          repeat match goal with
                 | H : _ = false |- _ => rewrite H; clear H
                 end;
          reflexivity ]
  | |- _ => close_bool
  end.

Lemma main_startup_facts (a : Main.answers) :
  wp (Main.main_startup a) (Main.main_facts a) [].
Proof.
  destruct a as [throws status_exit status_exitCode optionsWarnings
    serverDaemonize daemonize_error ignoreTerminalSignals_error serverSetUmask
    realUserIsRoot setResourceLimit_error makeCurrentPath_error
    secure_cookie_error session_proxy_error httpServerInit_error
    process_supervisor_error verifyInstallation overlay_initialize_error
    r_environment_detected requireLocalR serverOffline addins_error
    auth_isRegistered pam_auth_error serverUser temporarilyDropPriv_error
    runVerifyInstallationSession_error overlay_startup_error run_error].
  unfold Main.main_startup.
  cbn [Main.status_exit Main.status_exitCode Main.optionsWarnings
    Main.serverDaemonize Main.daemonize_error Main.ignoreTerminalSignals_error
    Main.serverSetUmask Main.realUserIsRoot Main.setResourceLimit_error
    Main.makeCurrentPath_error Main.secure_cookie_error Main.session_proxy_error
    Main.process_supervisor_error Main.verifyInstallation
    Main.overlay_initialize_error Main.r_environment_detected Main.requireLocalR
    Main.serverOffline Main.addins_error Main.auth_isRegistered
    Main.pam_auth_error Main.serverUser Main.temporarilyDropPriv_error
    Main.runVerifyInstallationSession_error Main.overlay_startup_error
    Main.run_error].
  repeat first [wp_step | progress cbv beta iota].
  all: main_leaf.
Qed.

Lemma main_facts_of (a : Main.answers) :
  Main.main_facts a (Main.calls_of a) (Main.result_of a).
Proof. exact (main_startup_facts a). Qed.

Lemma precedes_sound earlier later seen trace :
  Main.precedes earlier later seen trace = true ->
  forall pre post, trace = pre ++ later :: post -> seen = true \/ earlier ∈ pre.
Proof.
  revert seen. induction trace as [|s rest IH]; intros seen Hp pre post Heq.
  - now destruct pre.
  - cbn [Main.precedes] in Hp. apply andb_prop in Hp as [Hhere Hrest].
    destruct pre as [|s' pre'].
    + injection Heq as -> ->. rewrite bool_decide_eq_true_2 in Hhere by reflexivity.
      now left.
    + cbn [app] in Heq. injection Heq as -> ->.
      destruct (IH _ Hrest pre' post eq_refl) as [Hseen | Hin].
      * apply orb_prop in Hseen as [Hseen | Hs]; [now left | right].
        apply bool_decide_eq_true_1 in Hs as ->. left.
      * right. now right.
Qed.

Lemma precedes_always_after earlier later trace :
  Main.precedes earlier later false trace = true ->
  Main.always_after earlier later trace.
Proof.
  intros Hp pre post Heq.
  now destruct (precedes_sound _ _ _ _ Hp pre post Heq).
Qed.

Lemma occurs_false s trace : Main.occurs s trace = false -> s ∉ trace.
Proof. apply bool_decide_eq_false_1. Qed.

Lemma occurs_true s trace : Main.occurs s trace = true -> s ∈ trace.
Proof. apply bool_decide_eq_true_1. Qed.

Ltac split_andb H :=
  repeat match type of H with
         | _ && _ = true =>
             let H1 := fresh H in
             apply andb_prop in H as [H H1]
         end.

(** [main] makes its calls in an order that the code relies on: the process
    supervisor and the monitor client are initialized only after the http
    server, the R environment is looked for only after the daemon was made
    (when one is asked for), and the http server runs only after
    [overlay::startup], after the not-found handler is set and after the
    handlers are added. *)
Theorem main_call_order (a : Main.answers) :
  Main.always_after Main.server_httpServerInit Main.process_supervisor_initialize
    (Main.calls_of a) /\
  Main.always_after Main.server_httpServerInit Main.initializeMonitorClient
    (Main.calls_of a) /\
  (Main.serverDaemonize a = true ->
   Main.always_after Main.daemonize Main.r_environment_initialize (Main.calls_of a)) /\
  Main.always_after Main.overlay_startup Main.httpServer_run (Main.calls_of a) /\
  Main.always_after Main.setNotFoundHandler Main.httpServer_run (Main.calls_of a) /\
  Main.always_after
    (if Main.serverOffline a
     then Main.offline_httpServerAddHandlers else Main.httpServerAddHandlers)
    Main.httpServer_run (Main.calls_of a).
Proof.
  destruct (main_facts_of a) as (Horder & _).
  unfold Main.order_facts in Horder.
  apply andb_prop in Horder as [Horder Hhandlers].
  apply andb_prop in Horder as [Horder Huser].
  apply andb_prop in Horder as [Horder Hdaemon].
  apply andb_prop in Horder as [Horder Hstartup].
  apply andb_prop in Horder as [Horder Hnotfound].
  apply andb_prop in Horder as [Hsupervisor Hmonitor].
  repeat split; try (now apply precedes_always_after).
  - intros Hd. rewrite Hd in Hdaemon. now apply precedes_always_after.
  - destruct (Main.serverOffline a).
    + now apply precedes_always_after.
    + apply andb_prop in Hhandlers as [Hrun _]. now apply precedes_always_after.
Qed.

Lemma main_call_order_witness :
  Main.always_after Main.daemonize Main.r_environment_initialize
    (Main.calls_of Main.all_well).
Proof.
  exact (proj1 (proj2 (proj2 (main_call_order Main.all_well))) eq_refl).
Defined.

(** When a user to run as is configured, the privileges are dropped before
    the installation is verified, before [overlay::startup] and before the
    http server runs; the handlers are added, and PAM is initialized, before
    the privileges are dropped. *)
Theorem main_drops_privileges_first (a : Main.answers) :
  Main.serverUser a <> "" ->
  Main.always_after Main.temporarilyDropPriv Main.runVerifyInstallationSession
    (Main.calls_of a) /\
  Main.always_after Main.temporarilyDropPriv Main.overlay_startup (Main.calls_of a) /\
  Main.always_after Main.temporarilyDropPriv Main.httpServer_run (Main.calls_of a) /\
  (Main.serverOffline a = false ->
   Main.always_after Main.httpServerAddHandlers Main.temporarilyDropPriv
     (Main.calls_of a)).
Proof.
  intros Huser. apply String.eqb_neq in Huser.
  destruct (main_facts_of a) as (Horder & _).
  unfold Main.order_facts in Horder.
  apply andb_prop in Horder as [Horder Hhandlers].
  apply andb_prop in Horder as [_ Hdrop].
  rewrite Huser in Hdrop. cbn [negb implb] in Hdrop.
  apply andb_prop in Hdrop as [Hdrop Hrun].
  apply andb_prop in Hdrop as [Hverify Hstartup].
  repeat split; try (now apply precedes_always_after).
  intros Hoffline. rewrite Hoffline in Hhandlers.
  apply andb_prop in Hhandlers as [_ Hbefore]. now apply precedes_always_after.
Qed.

Lemma main_drops_privileges_first_witness :
  Main.always_after Main.temporarilyDropPriv Main.httpServer_run
    (Main.calls_of Main.all_well).
Proof.
  refine (proj1 (proj2 (proj2 (main_drops_privileges_first Main.all_well _)))).
  discriminate.
Defined.

(** A run in which the options ask to exit. *)
Lemma main_options_exit (a : Main.answers) :
  Main.status_exit a = true ->
  wp (Main.main_startup a)
     (fun trace result =>
        trace `prefix_of` Main.options_exit_calls a /\
        result <> inr tt /\
        ((forall s, Main.throws a s = false) ->
         trace = Main.options_exit_calls a /\
         result = inl (Main.status_exitCode a)))
     [].
Proof.
  destruct a as [throws status_exit status_exitCode optionsWarnings
    serverDaemonize daemonize_error ignoreTerminalSignals_error serverSetUmask
    realUserIsRoot setResourceLimit_error makeCurrentPath_error
    secure_cookie_error session_proxy_error httpServerInit_error
    process_supervisor_error verifyInstallation overlay_initialize_error
    r_environment_detected requireLocalR serverOffline addins_error
    auth_isRegistered pam_auth_error serverUser temporarilyDropPriv_error
    runVerifyInstallationSession_error overlay_startup_error run_error].
  cbn [Main.status_exit]. intros ->.
  unfold Main.main_startup, Main.options_exit_calls.
  cbn [Main.status_exit Main.status_exitCode Main.optionsWarnings Main.throws].
  repeat first [wp_step | progress cbv beta iota].
  all: cbn [app String.eqb];
    (split; [eexists; reflexivity |]);
    (split; [discriminate |]);
    intros Hno;
    repeat match goal with
           | H : _ = true |- _ => rewrite Hno in H; discriminate H
           end;
    split; reflexivity.
Qed.

(** What [main] does not call.  The offline server adds only its own
    handlers: the regular handlers, the addins and PAM are left alone; the
    regular server never adds the offline handlers, and leaves PAM alone
    when an authentication handler is registered.  A run that verifies the
    installation adds no monitor log writer, does not call
    [overlay::startup], does not run the http server and does not reach
    [waitForSignals].  When the options ask to exit, nothing is started:
    the calls made are those of lines 434-449 only (the log, SIGPIPE, the
    reading of the options and, with warnings, their report), cut short
    only by an exception, and [main] returns; without an exception all of
    them are made and the status is the exit code of the options. *)
Theorem main_never_calls (a : Main.answers) :
  (Main.serverOffline a = true ->
   (Main.httpServerAddHandlers ∉ Main.calls_of a) /\
   (Main.addins_initialize ∉ Main.calls_of a) /\
   (Main.auth_handler_isRegistered ∉ Main.calls_of a) /\
   (Main.pam_auth_initialize ∉ Main.calls_of a)) /\
  (Main.serverOffline a = false ->
   (Main.offline_httpServerAddHandlers ∉ Main.calls_of a)) /\
  (Main.auth_isRegistered a = true ->
   (Main.pam_auth_initialize ∉ Main.calls_of a)) /\
  (Main.verifyInstallation a = true ->
   (Main.addLogWriter ∉ Main.calls_of a) /\
   (Main.overlay_startup ∉ Main.calls_of a) /\
   (Main.setNotFoundHandler ∉ Main.calls_of a) /\
   (Main.httpServer_run ∉ Main.calls_of a) /\
   Main.result_of a <> inr tt) /\
  (Main.serverUser a = "" -> (Main.temporarilyDropPriv ∉ Main.calls_of a)) /\
  (Main.serverDaemonize a = false ->
   (Main.daemonize ∉ Main.calls_of a) /\ (Main.setUMask ∉ Main.calls_of a)) /\
  (Main.status_exit a = true ->
   Main.calls_of a `prefix_of` Main.options_exit_calls a /\
   Main.result_of a <> inr tt /\
   ((forall s, Main.throws a s = false) ->
    Main.calls_of a = Main.options_exit_calls a /\
    Main.result_of a = inl (Main.status_exitCode a))).
Proof.
  destruct (main_facts_of a) as (_ & Habsent & _).
  unfold Main.absence_facts in Habsent.
  apply andb_prop in Habsent as [Habsent Hexit].
  apply andb_prop in Habsent as [Habsent Hdaemon].
  apply andb_prop in Habsent as [Habsent Huser].
  apply andb_prop in Habsent as [Hoffline Hverify].
  split; [|split; [|split; [|split; [|split; [|split]]]]].
  - intros Hon. rewrite Hon in Hoffline. split_andb Hoffline.
    repeat split; apply occurs_false, negb_true_iff; assumption.
  - intros Hoff. rewrite Hoff in Hoffline. split_andb Hoffline.
    apply occurs_false, negb_true_iff; assumption.
  - intros Hreg. destruct (Main.serverOffline a).
    + split_andb Hoffline. apply occurs_false, negb_true_iff; assumption.
    + split_andb Hoffline. rewrite Hreg in *. cbn [implb] in *.
      apply occurs_false, negb_true_iff; assumption.
  - intros Hv. rewrite Hv in Hverify. cbn [implb] in Hverify. split_andb Hverify.
    repeat split; try (apply occurs_false, negb_true_iff; assumption).
    intros Hr. rewrite Hr in *. discriminate.
  - intros Hu. rewrite Hu in Huser. cbn in Huser.
    apply occurs_false, negb_true_iff; assumption.
  - intros Hd. rewrite Hd in Hdaemon. cbn [negb implb] in Hdaemon.
    split_andb Hdaemon. split; apply occurs_false, negb_true_iff; assumption.
  - intros He. exact (main_options_exit a He).
Qed.

Lemma main_never_calls_witness :
  ((Main.httpServerAddHandlers ∉ Main.calls_of offline_verify) /\
   (Main.httpServer_run ∉ Main.calls_of offline_verify) /\
   (Main.temporarilyDropPriv ∉ Main.calls_of offline_verify)) /\
  Main.calls_of asks_to_exit =
    [Main.initializeSystemLog; Main.ignoreSignal_SigPipe; Main.options_read;
     Main.reportWarnings] /\
  Main.result_of asks_to_exit = inl 0%Z.
Proof.
  pose proof (main_never_calls offline_verify)
    as (Hoff & _ & _ & Hver & Huser & _ & _).
  pose proof (main_never_calls asks_to_exit) as (_ & _ & _ & _ & _ & _ & Hexit).
  split.
  - split; [exact (proj1 (Hoff eq_refl))|].
    split; [exact (proj1 (proj2 (proj2 (proj2 (Hver eq_refl)))))|].
    exact (Huser eq_refl).
  - exact (proj2 (proj2 (Hexit eq_refl)) (fun _ => eq_refl)).
Defined.

(** The exit status of [main] before it waits for signals.  Status 0 is
    returned only when reading the options asked to exit with 0, or when the
    installation was to be verified and the verifying session reported no
    error.  After [exitFailure] or [reportError] the status is
    [EXIT_FAILURE].  When the options do not ask to exit, the status is 0 or
    [EXIT_FAILURE], or [main] goes on to wait for signals. *)
Theorem main_exit_status (a : Main.answers) :
  (Main.result_of a = inl 0%Z ->
   (Main.status_exit a = true /\ Main.status_exitCode a = 0%Z) \/
   (Main.status_exit a = false /\ Main.verifyInstallation a = true /\
    is_error (Main.runVerifyInstallationSession_error a) = false /\
    Main.runVerifyInstallationSession ∈ Main.calls_of a)) /\
  (forall error, Main.exitFailure error ∈ Main.calls_of a ->
                 Main.result_of a = inl EXIT_FAILURE) /\
  (Main.reportError ∈ Main.calls_of a -> Main.result_of a = inl EXIT_FAILURE) /\
  (Main.status_exit a = false ->
   Main.result_of a = inl 0%Z \/ Main.result_of a = inl EXIT_FAILURE \/
   Main.result_of a = inr tt).
Proof.
  destruct (main_facts_of a) as (_ & _ & Hexit & _).
  unfold Main.exit_facts in Hexit.
  apply andb_prop in Hexit as [Hexit Hthree].
  apply andb_prop in Hexit as [Hexit Hreport].
  apply andb_prop in Hexit as [Hzero Hfailure].
  assert (Hreturned : forall code,
            Main.returned code (Main.result_of a) = true ->
            Main.result_of a = inl code).
  { intros code. destruct (Main.result_of a) as [c|[]]; [|discriminate].
    cbn. now intros ->%Z.eqb_eq. }
  split; [|split; [|split]].
  - intros Hr. rewrite Hr in Hzero. cbn [Main.returned Z.eqb implb] in Hzero.
    apply orb_prop in Hzero as [H|H]; split_andb H.
    + left. split; [assumption | now apply Z.eqb_eq].
    + right. repeat split.
      * now apply negb_true_iff.
      * assumption.
      * now apply negb_true_iff.
      * now apply occurs_true.
  - intros error Hin. apply Hreturned.
    assert (Hex : existsb Main.is_exitFailure (Main.calls_of a) = true).
    { apply existsb_exists. exists (Main.exitFailure error).
      split; [now apply list_elem_of_In | reflexivity]. }
    now rewrite Hex in Hfailure.
  - intros Hin. apply Hreturned.
    assert (Hocc : Main.occurs Main.reportError (Main.calls_of a) = true)
      by now apply bool_decide_eq_true_2.
    now rewrite Hocc in Hreport.
  - intros Hs. rewrite Hs in Hthree. cbn [negb implb] in Hthree.
    apply orb_prop in Hthree as [H|H]; [apply orb_prop in H as [H|H]|].
    + left. now apply Hreturned.
    + right. left. now apply Hreturned.
    + right. right. destruct (Main.result_of a) as [c|[]]; [discriminate | reflexivity].
Qed.

Lemma main_exit_status_witness :
  Main.result_of makeCurrentPath_fails = inl EXIT_FAILURE.
Proof.
  apply (proj1 (proj2 (main_exit_status makeCurrentPath_fails))
           (systemError 2 "ServerMain.cpp")).
  vm_compute. repeat constructor.
Defined.

(** [main] reaches [waitForSignals] only when the last call was the run of
    the http server, no call raised an exception, no call that was made
    reported an error, the options did not ask to exit, the installation was
    not to be verified, and R was found or is not required. *)
Theorem main_serves_only_when_all_is_well (a : Main.answers) :
  Main.result_of a = inr tt ->
  last (Main.calls_of a) = Some Main.httpServer_run /\
  (forall s, s ∈ Main.calls_of a -> Main.throws a s = false) /\
  (forall error, (Main.exitFailure error ∉ Main.calls_of a)) /\
  Main.status_exit a = false /\
  Main.verifyInstallation a = false /\
  (Main.r_environment_detected a = true \/ Main.requireLocalR a = false) /\
  Forall (fun error => is_error error = false)
    [Main.makeCurrentPath_error a; Main.secure_cookie_error a;
     Main.session_proxy_error a; Main.httpServerInit_error a;
     Main.process_supervisor_error a; Main.overlay_initialize_error a;
     Main.overlay_startup_error a; Main.run_error a] /\
  (Main.serverDaemonize a = true ->
   is_error (Main.daemonize_error a) = false /\
   is_error (Main.ignoreTerminalSignals_error a) = false) /\
  (Main.realUserIsRoot a = true -> is_error (Main.setResourceLimit_error a) = false) /\
  (Main.serverOffline a = false ->
   is_error (Main.addins_error a) = false /\
   (Main.auth_isRegistered a = false -> is_error (Main.pam_auth_error a) = false)) /\
  (Main.serverUser a <> "" -> is_error (Main.temporarilyDropPriv_error a) = false).
Proof.
  intros Hr.
  destruct (main_facts_of a) as (_ & _ & _ & Hserving & Hthrows).
  unfold Main.serving_facts in Hserving. rewrite Hr in Hserving, Hthrows.
  cbn [Main.goes_on implb] in Hserving. specialize (Hthrows eq_refl).
  split_andb Hserving.
  split; [eapply bool_decide_eq_true_1; eassumption|].
  split.
  { intros s Hin. rewrite forallb_forall in Hthrows.
    apply negb_true_iff, Hthrows. now apply list_elem_of_In. }
  split.
  { intros error Hin.
    assert (Hex : existsb Main.is_exitFailure (Main.calls_of a) = true).
    { apply existsb_exists. exists (Main.exitFailure error).
      split; [now apply list_elem_of_In | reflexivity]. }
    rewrite Hex in *. discriminate. }
  split; [now apply negb_true_iff|].
  split; [now apply negb_true_iff|].
  split.
  { match goal with H : _ || negb _ = true |- _ => apply orb_prop in H as [H|H] end;
      [now left | right; now apply negb_true_iff]. }
  split.
  { match goal with
    | H : forallb (fun e => negb (is_error e)) _ = true |- _ =>
        rewrite forallb_forall in H; rename H into Hall
    end.
    apply Forall_forall. intros error Hin.
    apply negb_true_iff, Hall. now apply list_elem_of_In. }
  split.
  { intros Hd. rewrite Hd in *. cbn [implb] in *.
    match goal with
    | H : negb (is_error (Main.daemonize_error a)) && _ = true |- _ =>
        apply andb_prop in H as [H1 H2]
    end.
    split; now apply negb_true_iff. }
  split.
  { intros Hroot. rewrite Hroot in *. cbn [implb] in *. now apply negb_true_iff. }
  split.
  { intros Hoff. rewrite Hoff in *. cbn [negb implb] in *.
    match goal with
    | H : negb (is_error (Main.addins_error a)) && _ = true |- _ =>
        apply andb_prop in H as [H1 H2]
    end.
    split; [now apply negb_true_iff|].
    intros Hreg. rewrite Hreg in H2. cbn [negb implb] in H2.
    now apply negb_true_iff. }
  intros Hu. apply String.eqb_neq in Hu. rewrite Hu in *. cbn [negb implb] in *.
  now apply negb_true_iff.
Qed.

Lemma main_serves_only_when_all_is_well_witness :
  last (Main.calls_of Main.all_well) = Some Main.httpServer_run.
Proof.
  exact (proj1 (main_serves_only_when_all_is_well Main.all_well eq_refl)).
Defined.

(** ** Further properties of the signal loop *)

Section MoreSignalFacts.

Variable numberToString : Z -> string.
Variable ERROR_LOCATION : string.

Local Abbreviation pass := (waitForSignals_pass numberToString ERROR_LOCATION).
Local Abbreviation loop := (waitForSignals_loop numberToString ERROR_LOCATION).

(** What any pass that ends has done. *)
Lemma pass_any r sig w w1 :
  pass r sig w = inr w1 ->
  sigwait_result r = 0%Z /\
  (exists l, calls w1 = calls w ++ l /\ l `prefix_of` pass_calls sig) /\
  (status w1 = status w \/ exists sig', status w1 = Signaled sig').
Proof.
  intros Hpass. pose proof (pass_returns_after_sigwait _ _ _ _ _ _ Hpass) as Hwait.
  split; [exact Hwait|]. unfold pass_calls.
  destruct (is_shutdown_signal sig) eqn:Hsig.
  - destruct (pass_shutdown numberToString ERROR_LOCATION r sig w Hwait Hsig)
      as (w2 & Hpass2 & Hcalls & Hstatus).
    assert (w2 = w1) as -> by congruence. split; [|exact Hstatus].
    destruct Hcalls as [Hcalls | Hcalls]; eexists; (split; [exact Hcalls|]).
    + reflexivity.
    + now exists [sigaction sig SIG_DFL; kill_self sig].
  - destruct (pass_quiet numberToString ERROR_LOCATION r sig w Hwait Hsig)
      as (w2 & Hpass2 & Hcalls & _ & _ & _ & _ & Hstatus).
    assert (w2 = w1) as -> by congruence. split; [|now left].
    eexists. split; [exact Hcalls | reflexivity].
Qed.

Lemma pass_fails r sig w :
  sigwait_result r <> 0%Z ->
  pass r sig w = inl (systemError (sigwait_result r) ERROR_LOCATION).
Proof.
  intros Hwait. unfold waitForSignals_pass, sys_sigwait.
  now destruct (Z.eqb_spec (sigwait_result r) 0).
Qed.

Lemma loop_not_running delivered w :
  status w <> Running -> loop delivered w = (Killed, w).
Proof. destruct delivered as [|[r sig] rest]; cbn; now destruct (status w). Qed.

(** The loop never makes the process exit: it lives or was ended by a
    signal; and the loop returns only an error that [sigwait] gave. *)
Lemma loop_end_cases delivered w :
  status w = Running ->
  (exists sig, status (loop delivered w).2 = Signaled sig) \/
  status (loop delivered w).2 = Running.
Proof.
  revert w. induction delivered as [|[r sig] rest IH]; intros w Hrun.
  - right. cbn. now rewrite Hrun.
  - cbn [waitForSignals_loop]. rewrite Hrun.
    destruct (pass r sig w) as [error|w1] eqn:Hpass; [now right|].
    destruct (pass_any _ _ _ _ Hpass) as (_ & _ & [Hs | (sig' & Hs)]).
    + apply IH. congruence.
    + left. exists sig'. rewrite loop_not_running by congruence. exact Hs.
Qed.

Lemma loop_returned delivered w error w1 :
  loop delivered w = (Returned error, w1) ->
  exists code, code <> 0%Z /\ error = systemError code ERROR_LOCATION.
Proof.
  revert w. induction delivered as [|[r sig] rest IH]; intros w.
  - cbn. now destruct (status w).
  - cbn [waitForSignals_loop]. destruct (status w); try discriminate.
    destruct (pass r sig w) as [e|w2] eqn:Hpass; [|apply IH].
    intros [= <- <-]. revert Hpass. unfold waitForSignals_pass, sys_sigwait.
    destruct (Z.eqb_spec (sigwait_result r) 0) as [Hz|Hnz]; cbn [negb].
    + repeat match goal with
             | |- context [if ?b then _ else _] => destruct b
             | |- context [let '(_, _) := ?p in _] => destruct p
             end; discriminate.
    + intros [= <-]. eauto.
Qed.

Lemma waitForSignals_returned s delivered w error w1 :
  waitForSignals numberToString ERROR_LOCATION s delivered w = (Returned error, w1) ->
  is_error error = true.
Proof.
  unfold waitForSignals, sys_sigaction, sys_pthread_sigmask_block.
  destruct (negb (Z.eqb (setup_sigaction_result s) 0)); [now intros [= <- _]|].
  destruct (negb (Z.eqb (setup_sigmask_result s) 0)); [now intros [= <- _]|].
  intros (code & _ & ->)%loop_returned. reflexivity.
Qed.

Lemma waitForSignals_end_status s delivered w :
  status w = Running ->
  forall code,
    status (waitForSignals numberToString ERROR_LOCATION s delivered w).2 <> Exited code.
Proof.
  intros Hrun code.
  unfold waitForSignals, sys_sigaction, sys_pthread_sigmask_block.
  destruct (negb (Z.eqb (setup_sigaction_result s) 0)).
  { destruct (Z.eqb (setup_sigaction_result s) 0); cbn; congruence. }
  destruct (negb (Z.eqb (setup_sigmask_result s) 0)).
  { destruct (Z.eqb (setup_sigaction_result s) 0),
      (Z.eqb (setup_sigmask_result s) 0); cbn; congruence. }
  match goal with
  | |- status (waitForSignals_loop _ _ _ ?w0).2 <> _ =>
      destruct (loop_end_cases delivered w0) as [[sig Hs] | Hs];
        [destruct (Z.eqb (setup_sigaction_result s) 0),
           (Z.eqb (setup_sigmask_result s) 0); exact Hrun | |];
        rewrite Hs; discriminate
  end.
Qed.

Lemma main_wait_status s delivered w :
  status w = Running ->
  status (main_wait numberToString ERROR_LOCATION s delivered w) <> Exited 0.
Proof.
  intros Hrun. unfold main_wait.
  pose proof (waitForSignals_end_status s delivered w Hrun 0%Z) as Hend.
  destruct (waitForSignals numberToString ERROR_LOCATION s delivered w)
    as [[| error |] w1] eqn:Hwait; cbn [snd] in Hend; try exact Hend.
  rewrite (waitForSignals_returned _ _ _ _ _ Hwait). discriminate.
Qed.

(** [waitForSignals] returns only with an error, so the [return
    EXIT_SUCCESS] after it in [main] is never reached: from a running
    process, the end of [main] never gives exit status 0, and a return of
    [waitForSignals] gives [EXIT_FAILURE]. *)
Theorem waitForSignals_returns_only_errors
  (s : setup_results) (delivered : list (os_results * Z)) (w : process) :
  status w = Running ->
  (forall error w1,
     waitForSignals numberToString ERROR_LOCATION s delivered w = (Returned error, w1) ->
     is_error error = true /\
     status (main_wait numberToString ERROR_LOCATION s delivered w) = Exited EXIT_FAILURE) /\
  status (main_wait numberToString ERROR_LOCATION s delivered w) <> Exited 0.
Proof.
  intros Hrun. split.
  - intros error w1 Hret.
    pose proof (waitForSignals_returned _ _ _ _ _ Hret) as Herror.
    split; [exact Herror|].
    unfold main_wait. rewrite Hret. now rewrite Herror.
  - now apply main_wait_status.
Qed.

(** When [sigwait] fails, [waitForSignals] returns the error of [sigwait]
    at once: the signal of that pass reaches no collaborator, and nothing
    delivered later is handled. *)
Theorem sigwait_failure_ends_the_loop
  (before after : list (os_results * Z)) (r : os_results) (sig : Z) (w : process) :
  status w = Running ->
  forallb quiet_delivery before = true ->
  sigwait_result r <> 0%Z ->
  exists w1,
    loop (before ++ (r, sig) :: after) w =
      (Returned (systemError (sigwait_result r) ERROR_LOCATION), w1) /\
    calls w1 = calls w ++ flat_map (fun d => collaborator_calls d.2) before /\
    status w1 = Running.
Proof.
  revert w. induction before as [|[r0 sig0] rest IH]; intros w Hrun Hquiet Hfail.
  - exists w. cbn [app waitForSignals_loop flat_map].
    rewrite Hrun, (pass_fails r sig w Hfail), app_nil_r. auto.
  - cbn [forallb] in Hquiet. apply andb_prop in Hquiet as [Hd Hrest].
    unfold quiet_delivery in Hd. cbn [fst snd] in Hd.
    apply andb_prop in Hd as [Hwait%Z.eqb_eq Hsig%negb_true_iff].
    destruct (pass_quiet numberToString ERROR_LOCATION r0 sig0 w Hwait Hsig)
      as (w1 & Hpass & Hcalls & _ & _ & _ & _ & Hstatus).
    destruct (IH w1 ltac:(congruence) Hrest Hfail) as (w2 & Hloop & Hcalls2 & Hstatus2).
    exists w2. cbn [app waitForSignals_loop flat_map fst snd].
    rewrite Hrun, Hpass, Hloop, Hcalls2, Hcalls, app_assoc. auto.
Qed.

(** After its two calls succeeded, [waitForSignals] has the five signals it
    waits for blocked and the handler of line 272 set for SIGCHLD; handling
    SIGCHLD, SIGHUP and unexpected signals changes neither the mask nor a
    disposition, so this still holds whenever the loop waits again. *)
Theorem waitForSignals_keeps_signals_blocked
  (s : setup_results) (delivered : list (os_results * Z)) (w : process) :
  setup_sigaction_result s = 0%Z ->
  setup_sigmask_result s = 0%Z ->
  status w = Running ->
  forallb quiet_delivery delivered = true ->
  exists w1,
    waitForSignals numberToString ERROR_LOCATION s delivered w = (Waiting, w1) /\
    blocked w1 = blocked w ∪ list_to_set wait_mask /\
    (forall sig, sig ∈ wait_mask -> sig ∈ blocked w1) /\
    disposition w1 = <[ SIGCHLD := handleSIGCHLD ]> (disposition w) /\
    disposition_of w1 SIGCHLD = handleSIGCHLD.
Proof.
  intros Hact Hmask Hrun Hquiet.
  unfold waitForSignals, sys_sigaction, sys_pthread_sigmask_block.
  rewrite Hact, Hmask. cbn [Z.eqb negb].
  match goal with
  | |- context [waitForSignals_loop _ _ delivered ?w0] =>
      destruct (loop_quiet numberToString ERROR_LOCATION delivered w0 Hrun Hquiet)
        as (w1 & Hloop & _ & _ & Hblocked & Hdisp & _)
  end.
  exists w1. split; [exact Hloop|].
  cbn [blocked disposition set_blocked record_call set_disposition] in Hblocked, Hdisp.
  split; [exact Hblocked|]. split; [|split; [exact Hdisp|]].
  - intros sig Hin. rewrite Hblocked. apply elem_of_union_r.
    rewrite elem_of_list_to_set. exact Hin.
  - unfold disposition_of. rewrite Hdisp, lookup_insert_eq. reflexivity.
Qed.

Lemma count_call_app c l1 l2 :
  count_call c (l1 ++ l2) = count_call c l1 + count_call c l2.
Proof. unfold count_call. now rewrite filter_app, length_app. Qed.

Lemma loop_calls_bounded (c : call) (p : Z -> bool) delivered w :
  (forall sig, count_call c (pass_calls sig) <= if p sig then 1 else 0) ->
  count_call c (calls (loop delivered w).2) <=
  count_call c (calls w) + count_signal p delivered.
Proof.
  intros Hc. revert w. induction delivered as [|[r sig] rest IH]; intros w.
  - cbn. destruct (status w); cbn; lia.
  - cbn [waitForSignals_loop]. unfold count_signal in *.
    rewrite filter_cons. cbn [snd].
    destruct (status w); cbn [snd]; try lia.
    destruct (pass r sig w) as [e|w1] eqn:Hpass; cbn [snd]; [lia|].
    destruct (pass_any _ _ _ _ Hpass) as (_ & (l & Hcalls & k & Hk) & _).
    specialize (IH w1). specialize (Hc sig).
    rewrite Hk, count_call_app in Hc.
    rewrite Hcalls, count_call_app in IH.
    destruct (decide (p sig = true)) as [Hp|Hp].
    + rewrite Hp in Hc. cbn [length]. lia.
    + destruct (p sig); [congruence|]. lia.
Qed.

Lemma shutdown_calls_count w : shutdown_calls w = count_call overlay_shutdown (calls w).
Proof. reflexivity. Qed.

(** Whatever is delivered and whatever the system answers, no collaborator
    is called more often than its signals were delivered: [overlay::shutdown]
    at most once for each SIGINT, SIGQUIT or SIGTERM, [notifySIGCHLD] at
    most once for each SIGCHLD, [overlay::reloadConfiguration] at most once
    for each SIGHUP. *)
Theorem collaborators_called_at_most_once_per_signal
  (delivered : list (os_results * Z)) (w : process) :
  let w1 := (loop delivered w).2 in
  count_call overlay_shutdown (calls w1) <=
    count_call overlay_shutdown (calls w) + count_signal is_shutdown_signal delivered /\
  count_call notifySIGCHLD (calls w1) <=
    count_call notifySIGCHLD (calls w)
    + count_signal (fun sig => Z.eqb sig SIGCHLD) delivered /\
  count_call overlay_reloadConfiguration (calls w1) <=
    count_call overlay_reloadConfiguration (calls w)
    + count_signal (fun sig => Z.eqb sig SIGHUP) delivered.
Proof.
  cbn zeta. split; [|split]; apply loop_calls_bounded; intros sig;
    unfold pass_calls, collaborator_calls, count_call;
    destruct (is_shutdown_signal sig) eqn:Hsig;
    try (assert (Hchld : Z.eqb sig SIGCHLD = false)
           by (apply is_shutdown_signal_cases in Hsig as [-> | [-> | ->]]; reflexivity);
         assert (Hhup : Z.eqb sig SIGHUP = false)
           by (apply is_shutdown_signal_cases in Hsig as [-> | [-> | ->]]; reflexivity);
         rewrite ?Hchld, ?Hhup);
    try (destruct (Z.eqb_spec sig SIGCHLD) as [->|?];
         [|destruct (Z.eqb_spec sig SIGHUP) as [->|?]]);
    rewrite ?filter_cons, ?filter_nil;
    repeat (case_decide; try congruence); cbn [length]; lia.
Qed.

(** When [clearSignalMask] fails and the signal is blocked, as it is while
    the loop waits, the signal raised again only stays pending: shutdown has
    been called and the error logged, but the process is not ended and the
    loop goes on. *)
Theorem mask_failure_leaves_process_running
  (r : os_results) (sig : Z) (w : process) :
  sigwait_result r = 0%Z ->
  is_shutdown_signal sig = true ->
  is_error (clearSignalMask_result r) = true ->
  sig ∈ blocked w ->
  exists w1,
    pass r sig w = inr w1 /\
    status w1 = status w /\
    sig ∈ pending w1 /\
    blocked w1 = blocked w /\
    shutdown_calls w1 = S (shutdown_calls w) /\
    LOG_ERROR (clearSignalMask_result r) ∈ log w1.
Proof.
  intros Hwait Hsig Hclear Hblocked.
  rewrite (pass_shutdown_eq numberToString ERROR_LOCATION r sig w Hwait Hsig).
  assert (Hshut : mask_cleared r sig w =
                  record_call clearSignalMask
                    (record_call overlay_shutdown
                       (set_pending (pending w ∖ {[ sig ]}) w))).
  { unfold mask_cleared, sys_clearSignalMask. now rewrite Hclear. }
  rewrite Hshut. unfold is_running at 2.
  cbn [status record_call set_pending]. fold (is_running w).
  rewrite andb_negb_r.
  eexists. split; [reflexivity|].
  unfold sys_kill_self, signal_reset, sys_sigaction. rewrite Hclear. cbn [snd].
  assert (Hb : forall w', blocked w' = blocked w ->
                 bool_decide (sig ∈ blocked w') = true).
  { intros w' ->. now apply bool_decide_eq_true_2. }
  destruct (negb (Z.eqb (sigaction_result r) 0)), (Z.eqb (sigaction_result r) 0);
    rewrite Hb by reflexivity;
    cbn [status pending blocked log calls record_call set_pending write_log
         set_disposition];
    (repeat split;
     [ apply elem_of_union_r, elem_of_singleton; reflexivity
     | unfold shutdown_calls;
       cbn [calls record_call set_pending write_log set_disposition];
       rewrite <- !app_assoc, filter_app, length_app; cbn [app];
       rewrite !filter_cons, filter_nil;
       repeat (case_decide; try congruence); cbn [length]; lia
     | rewrite ?elem_of_app, !elem_of_cons; tauto ]).
Qed.

End MoreSignalFacts.

Lemma waitForSignals_returns_only_errors_witness :
  status (main_wait (fun _ => "") "ServerMain.cpp" setup_success
            [(os_success, SIGHUP); (os_sigwait_failure, 0%Z)] waiting_process)
  <> Exited 0.
Proof.
  exact (proj2 (waitForSignals_returns_only_errors (fun _ => "") "ServerMain.cpp"
                  setup_success [(os_success, SIGHUP); (os_sigwait_failure, 0%Z)]
                  waiting_process eq_refl)).
Defined.

Lemma sigwait_failure_ends_the_loop_witness :
  exists w1,
    waitForSignals_loop (fun _ => "") "ServerMain.cpp"
      ([(os_success, SIGCHLD)] ++ (os_sigwait_failure, SIGTERM) :: [(os_success, SIGHUP)])
      waiting_process = (Returned (systemError 22 "ServerMain.cpp"), w1) /\
    calls w1 = [notifySIGCHLD] /\
    status w1 = Running.
Proof.
  apply (sigwait_failure_ends_the_loop (fun _ => "") "ServerMain.cpp"
           [(os_success, SIGCHLD)] [(os_success, SIGHUP)] os_sigwait_failure SIGTERM
           waiting_process); [reflexivity | reflexivity | discriminate].
Defined.

Lemma waitForSignals_keeps_signals_blocked_witness :
  exists w1,
    waitForSignals (fun _ => "") "ServerMain.cpp" setup_success
      [(os_success, SIGCHLD); (os_success, SIGHUP)] waiting_process = (Waiting, w1) /\
    blocked w1 = blocked waiting_process ∪ list_to_set wait_mask /\
    (forall sig, sig ∈ wait_mask -> sig ∈ blocked w1) /\
    disposition w1 = <[ SIGCHLD := handleSIGCHLD ]> (disposition waiting_process) /\
    disposition_of w1 SIGCHLD = handleSIGCHLD.
Proof.
  apply (waitForSignals_keeps_signals_blocked (fun _ => "") "ServerMain.cpp"
           setup_success [(os_success, SIGCHLD); (os_success, SIGHUP)]
           waiting_process); reflexivity.
Defined.

Lemma mask_failure_leaves_process_running_witness :
  exists w1,
    waitForSignals_pass (fun _ => "") "ServerMain.cpp" os_mask_failure SIGTERM
      waiting_process = inr w1 /\
    status w1 = status waiting_process /\
    SIGTERM ∈ pending w1 /\
    blocked w1 = blocked waiting_process /\
    shutdown_calls w1 = S (shutdown_calls waiting_process) /\
    LOG_ERROR (clearSignalMask_result os_mask_failure) ∈ log w1.
Proof.
  apply (mask_failure_leaves_process_running (fun _ => "") "ServerMain.cpp"
           os_mask_failure SIGTERM waiting_process);
    [reflexivity | reflexivity | reflexivity |].
  vm_compute. set_solver.
Defined.

(** ** The handler table *)

Lemma prefix_refl s : String.prefix s s = true.
Proof.
  induction s as [|c s IH]; [reflexivity|].
  now rewrite prefix_cons, Ascii.eqb_refl.
Qed.

(** Two strings that both start a third one are comparable. *)
Lemma prefix_comparable p q s :
  String.prefix p s = true -> String.prefix q s = true -> comparable p q = true.
Proof.
  unfold comparable. revert p q. induction s as [|c s IH]; intros p q.
  - destruct p; [intros _ _; now rewrite prefix_empty | discriminate].
  - destruct p as [|a p]; [intros _ _; now rewrite prefix_empty|].
    destruct q as [|b q]; [intros _ _; now rewrite prefix_empty, orb_true_r|].
    rewrite !prefix_cons.
    intros [Ha Hp]%andb_prop [Hb Hq]%andb_prop.
    apply Ascii.eqb_eq in Ha, Hb. subst a b. rewrite Ascii.eqb_refl.
    exact (IH p q Hp Hq).
Qed.

Lemma filter_length_zero {A} (P : A -> Prop) `{forall x, Decision (P x)} (l : list A) :
  length (filter P l) = 0 -> forall x, x ∈ l -> ~ P x.
Proof.
  induction l as [|y l IH]; [intros _ x Hx; now apply elem_of_nil in Hx|].
  rewrite filter_cons. destruct (decide (P y)) as [Hy|Hy]; [discriminate|].
  intros Hlen x [->|Hx]%elem_of_cons; [exact Hy | now apply IH].
Qed.

Lemma literal_prefixes_incomparable proxyLocalhost p q :
  p ∈ literal_prefixes proxyLocalhost ->
  q ∈ literal_prefixes proxyLocalhost ->
  comparable p q = true -> p = q.
Proof.
  assert (Hall : forallb (fun p => forallb (fun q =>
                    String.eqb p q || negb (comparable p q))
                  (literal_prefixes proxyLocalhost))
                  (literal_prefixes proxyLocalhost) = true)
    by (destruct proxyLocalhost; vm_compute; reflexivity).
  intros Hp Hq Hcmp. rewrite forallb_forall in Hall.
  specialize (Hall p (proj1 (list_elem_of_In _ _) Hp)).
  rewrite forallb_forall in Hall.
  specialize (Hall q (proj1 (list_elem_of_In _ _) Hq)).
  rewrite Hcmp in Hall. cbn [negb] in Hall. rewrite orb_false_r in Hall.
  now apply String.eqb_eq.
Qed.

Lemma literal_prefixes_NoDup proxyLocalhost : NoDup (literal_prefixes proxyLocalhost).
Proof.
  apply (bool_decide_unpack _). destruct proxyLocalhost; vm_compute; reflexivity.
Qed.

(** The table is free of ambiguity: provided the unsupported-browser path
    is comparable with no registered prefix but itself, no prefix is
    registered twice and at most one registered prefix starts any given
    request path. *)
Theorem handler_prefixes_unambiguous
  (options : Options) (jsLiteralEscape : string -> string)
  (childPath complete : string -> string -> string)
  (renderTemplate : string -> gmap string string -> Error * string)
  (kBrowserUnsupported : string)
  (handleLogRequest handleMetaRequest : http.UriHandlerFunction)
  (handleSecureTemplateRequest : string -> http.UriHandlerFunction)
  (handleBrowserUnsupportedRequest blockingFileHandler : http.UriHandlerFunction)
  (secureJsonRpcHandler secureHttpHandler :
     http.UriHandlerFunction -> http.UriHandlerFunction) :
  let prefixes :=
    registered_prefixes
      (httpServerAddHandlers options jsLiteralEscape childPath complete renderTemplate
         kBrowserUnsupported handleLogRequest handleMetaRequest
         handleSecureTemplateRequest handleBrowserUnsupportedRequest
         blockingFileHandler secureJsonRpcHandler secureHttpHandler) in
  length (filter (fun p => comparable kBrowserUnsupported p = true) prefixes) = 1 ->
  NoDup prefixes /\
  forall path p1 p2,
    p1 ∈ prefixes -> p2 ∈ prefixes ->
    String.prefix p1 path = true -> String.prefix p2 path = true ->
    p1 = p2.
Proof.
  intros prefixes Hone.
  set (lits := literal_prefixes (wwwProxyLocalhost options)).
  assert (Hsplit : exists L,
             prefixes = L ++ kBrowserUnsupported :: ["/templates"] /\
             lits = L ++ ["/templates"]).
  { exists (removelast lits). unfold prefixes, lits, httpServerAddHandlers.
    destruct (wwwProxyLocalhost options); split; reflexivity. }
  destruct Hsplit as (L & Hprefixes & Hlits).
  assert (Hself : comparable kBrowserUnsupported kBrowserUnsupported = true)
    by (unfold comparable; now rewrite prefix_refl).
  assert (Hothers : forall p, p ∈ lits -> comparable kBrowserUnsupported p = false).
  { rewrite Hprefixes, filter_app, filter_cons, length_app in Hone.
    destruct (decide (comparable kBrowserUnsupported kBrowserUnsupported = true));
      [|contradiction].
    cbn [length] in Hone.
    intros p Hp. rewrite Hlits in Hp. apply elem_of_app in Hp as [Hp|Hp].
    - apply not_true_is_false.
      apply (filter_length_zero (fun q => comparable kBrowserUnsupported q = true) L);
        [lia | exact Hp].
    - apply not_true_is_false.
      apply (filter_length_zero (fun q => comparable kBrowserUnsupported q = true)
               ["/templates"]); [lia | exact Hp]. }
  assert (Hmem : forall p, p ∈ prefixes <-> p = kBrowserUnsupported \/ p ∈ lits).
  { intros p. rewrite Hprefixes, Hlits, !elem_of_app, elem_of_cons. tauto. }
  assert (Hfresh : kBrowserUnsupported ∉ lits).
  { intros Hin. apply Hothers in Hin. congruence. }
  split.
  - rewrite Hprefixes.
    assert (Hperm : L ++ kBrowserUnsupported :: ["/templates"] ≡ₚ
                    kBrowserUnsupported :: (L ++ ["/templates"]))
      by (symmetry; apply Permutation_middle).
    rewrite Hperm. apply NoDup_cons. rewrite <- Hlits. split; [exact Hfresh|].
    apply literal_prefixes_NoDup.
  - intros path p1 p2 H1 H2 Hp1 Hp2.
    pose proof (prefix_comparable p1 p2 path Hp1 Hp2) as Hcmp.
    apply Hmem in H1 as [->|H1]; apply Hmem in H2 as [->|H2].
    + reflexivity.
    + rewrite (Hothers p2 H2) in Hcmp. discriminate.
    + unfold comparable in Hcmp. rewrite orb_comm in Hcmp.
      fold (comparable kBrowserUnsupported p1) in Hcmp.
      rewrite (Hothers p1 H1) in Hcmp. discriminate.
    + exact (literal_prefixes_incomparable _ p1 p2 H1 H2 Hcmp).
Qed.

Lemma handler_prefixes_unambiguous_witness :
  NoDup
    (registered_prefixes
       (httpServerAddHandlers
          {| wwwLocalPath := "/usr/lib/rstudio-server/www"; wwwProxyLocalhost := true |}
          id String.append String.append (fun _ _ => (Success, "<html/>"))
          "/unsupported_browser.htm" no_handler no_handler (fun _ => no_handler)
          no_handler no_handler id id)).
Proof.
  refine (proj1 (handler_prefixes_unambiguous
    {| wwwLocalPath := "/usr/lib/rstudio-server/www"; wwwProxyLocalhost := true |}
    id String.append String.append (fun _ _ => (Success, "<html/>"))
    "/unsupported_browser.htm" no_handler no_handler (fun _ => no_handler)
    no_handler no_handler id id _)).
  vm_compute. reflexivity.
Defined.

(** ** The whole of [main] *)

(** [main] ends with exit status 0 only when reading the options asked to
    exit with 0, or when the installation was verified without error: once
    the server serves, the process never exits with status 0. *)
Theorem main_exits_zero_only_without_serving
  (numberToString : Z -> string) (ERROR_LOCATION : string)
  (a : Main.answers) (s : setup_results) (delivered : list (os_results * Z))
  (w : process) :
  status w = Running ->
  main_status numberToString ERROR_LOCATION a s delivered w = Exited 0 ->
  Main.result_of a = inl 0%Z /\
  (Main.httpServer_run ∉ Main.calls_of a).
Proof.
  intros Hrun. unfold main_status.
  destruct (Main.result_of a) as [code|[]] eqn:Hresult.
  - intros [= ->]. split; [reflexivity|].
    destruct (main_facts_of a) as (_ & Habsent & Hexit & _).
    unfold Main.exit_facts in Hexit. rewrite Hresult in Hexit.
    apply andb_prop in Hexit as [Hexit _]. apply andb_prop in Hexit as [Hexit _].
    apply andb_prop in Hexit as [Hzero _].
    cbn [Main.returned Z.eqb implb] in Hzero.
    unfold Main.absence_facts in Habsent.
    apply andb_prop in Habsent as [Habsent Hasked].
    apply andb_prop in Habsent as [Habsent _].
    apply andb_prop in Habsent as [Habsent _].
    apply andb_prop in Habsent as [_ Hv].
    apply occurs_false, negb_true_iff.
    apply orb_prop in Hzero as [H|H].
    + apply andb_prop in H as [H _]. rewrite H in Hasked. cbn [implb] in Hasked.
      now apply andb_prop in Hasked as [_ Hasked].
    + apply andb_prop in H as [H _]. apply andb_prop in H as [H _].
      apply andb_prop in H as [_ Hverify].
      rewrite Hverify in Hv. cbn [implb] in Hv.
      apply andb_prop in Hv as [Hv _]. now apply andb_prop in Hv as [_ Hrunning].
  - intros Hzero. exfalso.
    now apply (main_wait_status numberToString ERROR_LOCATION s delivered w Hrun).
Qed.

Lemma main_exits_zero_only_without_serving_witness :
  Main.result_of offline_verify = inl 0%Z /\
  (Main.httpServer_run ∉ Main.calls_of offline_verify).
Proof.
  apply (main_exits_zero_only_without_serving (fun _ => "") "ServerMain.cpp"
           offline_verify setup_success [] waiting_process); reflexivity.
Defined.

(** ** The escaped form *)

(** In an escaped key or value the split pattern finds nothing: every [=]
    of it follows a backslash. *)
Theorem escaped_string_has_no_delimiter (s : string) :
  Str.regex_search rx (Str.replace_all_copy s "=" "\=") = None.
Proof.
  fold (escape s). induction s as [|c s IH]; [reflexivity|].
  rewrite escape_cons.
  destruct (Ascii.eqb c Str.equals).
  - rewrite regex_search_cons.
    replace (negb (Ascii.eqb Str.backslash Str.backslash)) with false by reflexivity.
    cbn [andb]. now rewrite regex_search_cons, escape_head, andb_false_r, IH.
  - now rewrite regex_search_cons, escape_head, andb_false_r, IH.
Qed.
